(** * oro.py: real gold price and compound growth, verified over a shallow embedding

    The script [src/Python/oro.py] fetches the monthly gold price in EUR and
    the Spanish CPI monthly variation, joins them on the period, deflates the
    price with a cumulative CPI index and derives growth figures, showing
    charts and writing one CSV along the way.

    The embedding follows the script statement by statement:
    - [Float]     the numbers of the script, finite values kept exact;
    - [Calendar]  timestamps, their year and their distance in days;
    - [Py]        exceptions and the ordered outputs of a run;
    - [Frame]     the table with named columns that the script grows;
    - [Oro]       the script itself, top to bottom;
    - [Values]    the values a run computes, as expressions of the joined rows;
    - [Access], [Examples], [Derived]  positions in the columns, sample
                  runs, and the vocabulary of the further properties;
    - [IEEE]      lines 69, 70 and the quotient of line 142 in binary64, to
                  show where rounding, overflow and underflow change a result
                  that holds over the exact reals of [Float];
    - [Closed]    the run written as a function of the two downloads.

    The properties come last: facts about the numbers and the columns, the
    run in closed form, then the index and the deflated price, the failures
    and the outputs, and the growth figures.  A property that is an equality
    or a strict bound between computed numbers is a property of exact
    arithmetic, and says so; the properties of outputs, exceptions, table
    shapes and special values do not depend on rounding. *)

From Stdlib Require Import Reals Lra Lia ZArith Bool String List Sorted SpecFloat.
Import ListNotations.

(* ===================================================================== *)
(** ** Numbers *)

(** A float64 of NumPy / pandas.  Finite values are exact reals: rounding,
    overflow and underflow are not modelled, and there is one zero (a
    quotient by zero takes the sign of the dividend, as it does for +0.0).
    The three special values are kept, because NumPy arithmetic answers a
    division by zero or an invalid power with one of them instead of raising.
    Prices and rates are numbers: a missing observation in a download is
    outside this model.  [IEEE] below has the same operations in binary64. *)
Module Float.
Open Scope R_scope.

Inductive float64 : Type :=
| Fin (r : R)
| PInf
| NInf
| NaN.

(** Sign of a real, as a three-way comparison with zero. *)
Definition Rsign (x : R) : comparison :=
  match total_order_T x 0 with
  | inleft (left _) => Lt
  | inleft (right _) => Eq
  | inright _ => Gt
  end.

Definition neg (x : float64) : float64 :=
  match x with
  | Fin r => Fin (- r)
  | PInf => NInf
  | NInf => PInf
  | NaN => NaN
  end.

(** An infinity multiplied by a finite value of the given sign. *)
Definition scale_inf (s : comparison) (i : float64) : float64 :=
  match s with
  | Gt => i
  | Lt => neg i
  | Eq => NaN
  end.

Definition add (x y : float64) : float64 :=
  match x, y with
  | NaN, _ | _, NaN => NaN
  | Fin a, Fin b => Fin (a + b)
  | PInf, NInf | NInf, PInf => NaN
  | PInf, _ | _, PInf => PInf
  | NInf, _ | _, NInf => NInf
  end.

Definition sub (x y : float64) : float64 := add x (neg y).

Definition mul (x y : float64) : float64 :=
  match x, y with
  | NaN, _ | _, NaN => NaN
  | Fin a, Fin b => Fin (a * b)
  | Fin a, i => scale_inf (Rsign a) i
  | i, Fin b => scale_inf (Rsign b) i
  | PInf, PInf | NInf, NInf => PInf
  | PInf, NInf | NInf, PInf => NInf
  end.

(** NumPy division: a zero divisor gives an infinity of the sign of the
    dividend, or NaN for 0/0; it never raises. *)
Definition div (x y : float64) : float64 :=
  match x, y with
  | NaN, _ | _, NaN => NaN
  | Fin a, Fin b =>
      if Req_dec_T b 0 then scale_inf (Rsign a) PInf else Fin (a / b)
  | Fin _, _ => Fin 0
  | i, Fin b =>
      match Rsign b with
      | Lt => neg i
      | _ => i
      end
  | _, _ => NaN
  end.

(** [e] is a whole number. *)
Definition is_integer (e : R) : bool :=
  if Req_dec_T (IZR (Int_part e)) e then true else false.

Definition is_odd_integer (e : R) : bool :=
  is_integer e && Z.odd (Int_part e).

(** NumPy power [b ** e] with a finite exponent.  A negative base with an
    exponent that is not a whole number gives NaN; nothing raises. *)
Definition pow (b : float64) (e : R) : float64 :=
  match Rsign e with
  | Eq => Fin 1
  | se =>
      match b with
      | NaN => NaN
      | Fin x =>
          match Rsign x with
          | Gt => Fin (Rpower x e)
          | Eq => match se with Gt => Fin 0 | _ => PInf end
          | Lt => if is_integer e then Fin (powerRZ x (Int_part e)) else NaN
          end
      | PInf => match se with Gt => PInf | _ => Fin 0 end
      | NInf =>
          match se with
          | Gt => if is_odd_integer e then NInf else PInf
          | _ => Fin 0
          end
      end
  end.

End Float.
Export Float.

(* ===================================================================== *)
(** ** Calendar *)

(** A pandas Timestamp at day resolution (both sources deliver dates at
    midnight). *)
Module Calendar.
Open Scope Z_scope.

Record Timestamp : Type := mkTimestamp { ts_year : Z; ts_month : Z; ts_day : Z }.

Definition ts_eqb (a b : Timestamp) : bool :=
  (ts_year a =? ts_year b) && (ts_month a =? ts_month b) && (ts_day a =? ts_day b).

(** [a >= b] on timestamps. *)
Definition ts_geb (a b : Timestamp) : bool :=
  if ts_year a =? ts_year b then
    if ts_month a =? ts_month b then ts_day b <=? ts_day a
    else ts_month b <? ts_month a
  else ts_year b <? ts_year a.

(** Days since 1970-01-01 in the proleptic Gregorian calendar. *)
Definition days_from_civil (t : Timestamp) : Z :=
  let y := if ts_month t <=? 2 then ts_year t - 1 else ts_year t in
  let era := y / 400 in
  let yoe := y - era * 400 in
  let mp := if ts_month t <=? 2 then ts_month t + 9 else ts_month t - 3 in
  let doy := (153 * mp + 2) / 5 + ts_day t - 1 in
  let doe := yoe * 365 + yoe / 4 - yoe / 100 + doy in
  era * 146097 + doe - 719468.

(** [(a - b).days] *)
Definition days_between (a b : Timestamp) : Z :=
  days_from_civil a - days_from_civil b.

End Calendar.
Export Calendar.

(* ===================================================================== *)
(** ** Exceptions and outputs *)

Module Py.

(** The exceptions a run can end with. *)
Inductive Exn : Type :=
| FetchError          (* fetch_series failed *)
| ReadCsvError        (* pd.read_csv failed *)
| DateParseError      (* pd.to_datetime rejected a text *)
| KeyError (column : string)
| TypeError (column : string)
| IndexError          (* positional indexer out of bounds *)
| ZeroDivisionError.

Section Trace.
Variable Event : Type.

(** A computation: the outputs it produced, in order, and either the
    exception that stopped it or its value. *)
Definition M (A : Type) : Type := (list Event * (Exn + A))%type.

Definition ret {A} (a : A) : M A := ([], inr a).
Definition raise {A} (e : Exn) : M A := ([], inl e).
Definition emit (ev : Event) : M unit := ([ev], inr tt).

Definition bind {A B} (m : M A) (f : A -> M B) : M B :=
  match snd m with
  | inl e => (fst m, inl e)
  | inr a => (fst m ++ fst (f a), snd (f a))
  end.

(** [for x in xs: acc = body(acc, x)] *)
Fixpoint for_each {A S} (xs : list A) (body : S -> A -> M S) (acc : S) : M S :=
  match xs with
  | [] => ret acc
  | x :: xs' => bind (body acc x) (for_each xs' body)
  end.

End Trace.

Arguments ret {Event A} a.
Arguments raise {Event A} e.
Arguments emit {Event} ev.
Arguments bind {Event A B} m f.
Arguments for_each {Event A S} xs body acc.

End Py.
Export Py.

Declare Scope py_scope.
Delimit Scope py_scope with py.
Notation "x <- m ;; k" := (bind m (fun x => k))
  (at level 61, m at next level, right associativity) : py_scope.
Notation "m ;;; k" := (bind m (fun _ => k))
  (at level 61, right associativity) : py_scope.

(* ===================================================================== *)
(** ** Tables *)

Module Frame.
Open Scope string_scope.

Inductive Column : Type :=
| ColDate (l : list Timestamp)
| ColFloat (l : list float64)
| ColInt (l : list Z).

(** A DataFrame: its columns in order, by name. *)
Definition DataFrame : Type := list (string * Column).

Definition columns (df : DataFrame) : list string := map fst df.

Fixpoint lookup (df : DataFrame) (name : string) : option Column :=
  match df with
  | [] => None
  | (n, c) :: df' => if String.eqb n name then Some c else lookup df' name
  end.

(** [df[name] = c]: replaces the column in place, or appends a new one. *)
Fixpoint assign (df : DataFrame) (name : string) (c : Column) : DataFrame :=
  match df with
  | [] => [(name, c)]
  | (n, c') :: df' =>
      if String.eqb n name then (n, c) :: df' else (n, c') :: assign df' name c
  end.

Definition col_length (c : Column) : nat :=
  match c with
  | ColDate l => List.length l
  | ColFloat l => List.length l
  | ColInt l => List.length l
  end.

(** [len(df)] *)
Definition nrows (df : DataFrame) : nat :=
  match df with
  | [] => 0
  | (_, c) :: _ => col_length c
  end.

(** Rows kept by a boolean mask. *)
Fixpoint mask_list {A} (mask : list bool) (l : list A) : list A :=
  match mask, l with
  | b :: mask', x :: l' => if b then x :: mask_list mask' l' else mask_list mask' l'
  | _, _ => []
  end.

Definition mask_column (mask : list bool) (c : Column) : Column :=
  match c with
  | ColDate l => ColDate (mask_list mask l)
  | ColFloat l => ColFloat (mask_list mask l)
  | ColInt l => ColInt (mask_list mask l)
  end.

Definition mask_rows (mask : list bool) (df : DataFrame) : DataFrame :=
  map (fun nc => (fst nc, mask_column mask (snd nc))) df.

(** Insertion of a key in an ascending list without duplicates. *)
Fixpoint insert_key (k : Z) (l : list Z) : list Z :=
  match l with
  | [] => [k]
  | x :: l' =>
      if (k <? x)%Z then k :: l
      else if (k =? x)%Z then l
      else x :: insert_key k l'
  end.

(** The distinct keys of a column, ascending (groupby sorts its keys). *)
Definition sorted_keys (l : list Z) : list Z := fold_right insert_key [] l.

(** Series arithmetic, element by element on equal-length columns. *)
Fixpoint map2 {A B C} (f : A -> B -> C) (xs : list A) (ys : list B) : list C :=
  match xs, ys with
  | x :: xs', y :: ys' => f x y :: map2 f xs' ys'
  | _, _ => []
  end.

(** [s.cumprod()]: NaN entries stay NaN and are left out of the product. *)
Fixpoint cumprod_from (acc : float64) (s : list float64) : list float64 :=
  match s with
  | [] => []
  | NaN :: s' => NaN :: cumprod_from acc s'
  | x :: s' => let acc' := mul acc x in acc' :: cumprod_from acc' s'
  end.

Definition cumprod (s : list float64) : list float64 :=
  match s with
  | [] => []
  | NaN :: s' => NaN :: cumprod_from (Fin 1) s'
  | x :: s' => x :: cumprod_from x s'
  end.

(** [s.ffill()]: a NaN takes the last value before it that is not NaN. *)
Fixpoint ffill_from (last : float64) (s : list float64) : list float64 :=
  match s with
  | [] => []
  | NaN :: s' => last :: ffill_from last s'
  | x :: s' => x :: ffill_from x s'
  end.

Definition ffill (s : list float64) : list float64 := ffill_from NaN s.

(** [s.shift(1)] *)
Definition shift1 (s : list float64) : list float64 :=
  match s with
  | [] => []
  | _ => NaN :: removelast s
  end.

(** [s.pct_change()] of pandas 2 (the version [format='mixed'] asks for):
    missing values are padded first, then [s / s.shift(1) - 1]. *)
Definition pct_change (s : list float64) : list float64 :=
  let data := ffill s in
  map2 (fun x p => sub (div x p) (Fin 1)) data (shift1 data).

End Frame.
Export Frame.

(* ===================================================================== *)
(** ** The script *)

Module Oro.
Open Scope string_scope.
Open Scope R_scope.
Open Scope py_scope.

(** *** What the run receives *)

(** A row of the frame that [fetch_series] returns (the columns the script
    keeps). *)
Record GoldRow : Type := mkGold { period : Timestamp; value : R }.

(** A row of the INE file.  [Periodo] is what [pd.to_datetime] makes of the
    row's text once its 'M' is replaced by '-', [None] when it rejects it. *)
Record IpcRow : Type :=
  mkIpc { Tipo_de_dato : string; Periodo : option Timestamp; Total : R }.

(** Everything around a run.  A download is [None] when the call raises (no
    network, no such series, a file without the expected columns).  The
    clock, the random state and the process environment are there as well;
    the script reads none of them. *)
Record World : Type := mkWorld {
  fetch_series : option (list GoldRow);
  read_csv : option (list IpcRow);
  clock : Z;
  random_state : Z;
  environ : list (string * string)
}.

(** *** What the run produces *)

Inductive Event : Type :=
| Show (title : string) (series : list (Column * Column))   (* plt.show() *)
| ToCsv (path : string) (df : DataFrame)                    (* df.to_csv(path) *)
| Print (x : float64).                                      (* the final print *)

Definition Run (A : Type) : Type := M Event A.

(** The variables left at the end of the script. *)
Record Result : Type := mkResult {
  df_oro_ipc : DataFrame;
  cagr_per_year : list (Z * float64);
  cagr : float64
}.

(** *** Indexing *)

Definition get_float (df : DataFrame) (name : string) : Run (list float64) :=
  match lookup df name with
  | Some (ColFloat l) => ret l
  | Some _ => raise (TypeError name)
  | None => raise (KeyError name)
  end.

Definition get_date (df : DataFrame) (name : string) : Run (list Timestamp) :=
  match lookup df name with
  | Some (ColDate l) => ret l
  | Some _ => raise (TypeError name)
  | None => raise (KeyError name)
  end.

Definition get_int (df : DataFrame) (name : string) : Run (list Z) :=
  match lookup df name with
  | Some (ColInt l) => ret l
  | Some _ => raise (TypeError name)
  | None => raise (KeyError name)
  end.

(** [s.iloc[0]] *)
Definition iloc_first {A} (s : list A) : Run A :=
  match s with
  | [] => raise IndexError
  | x :: _ => ret x
  end.

(** [s.iloc[-1]] *)
Definition iloc_last {A} (s : list A) : Run A :=
  match s with
  | [] => raise IndexError
  | x :: s' => ret (last s' x)
  end.

(** Python [x / y] on floats: a zero divisor raises. *)
Definition py_div (x y : R) : Run R :=
  if Req_dec_T y 0 then raise ZeroDivisionError else ret (x / y).

(** *** Loading and joining (lines 30-65) *)

Definition start_date : Timestamp := mkTimestamp 2000 1 1.

(** [df[df['period'] >= '2000-01-01'][['period', 'value']]] *)
Definition df_oro_of (df : list GoldRow) : list GoldRow :=
  filter (fun r => ts_geb (period r) start_date) df.

(** [df_ipc[df_ipc['Tipo de dato'] == 'Variación mensual']] *)
Definition monthly_rows (df_ipc : list IpcRow) : list IpcRow :=
  filter (fun r => String.eqb (Tipo_de_dato r) "Variación mensual") df_ipc.

(** The column of timestamps, if every text of the column is accepted. *)
Fixpoint parse_all (texts : list (option Timestamp)) : option (list Timestamp) :=
  match texts with
  | [] => Some []
  | None :: _ => None
  | Some t :: texts' =>
      match parse_all texts' with
      | Some ts => Some (t :: ts)
      | None => None
      end
  end.

(** [pd.to_datetime(...)] over the column: one rejected text raises. *)
Definition to_datetime (texts : list (option Timestamp)) : Run (list Timestamp) :=
  match parse_all texts with
  | Some ts => ret ts
  | None => raise DateParseError
  end.

(** [pd.merge(df_oro, df_ipc, on='period', how='inner')], as rows: the order
    of the left frame, and for each of its rows the matching right rows. *)
Definition inner_join (df_oro : list GoldRow) (df_ipc : list (Timestamp * R))
  : list (GoldRow * R) :=
  flat_map (fun g =>
    map (fun c => (g, snd c))
        (filter (fun c => ts_eqb (fst c) (period g)) df_ipc)) df_oro.

Definition frame_of (rows : list (GoldRow * R)) : DataFrame :=
  [ ("period", ColDate (map (fun r => period (fst r)) rows));
    ("value", ColFloat (map (fun r => Fin (value (fst r))) rows));
    ("IPC", ColFloat (map (fun r => Fin (snd r)) rows)) ].

(** *** Derived columns (lines 69-101) *)

(** [100 * (1 + IPC / 100).cumprod()] *)
Definition IPC_indice (IPC : list float64) : list float64 :=
  map (mul (Fin 100))
      (cumprod (map (fun r => add (Fin 1) (div r (Fin 100))) IPC)).

(** [value * (IPC_indice.iloc[0] / IPC_indice)] *)
Definition value_real (value : list float64) (indice0 : float64)
    (indice : list float64) : list float64 :=
  map2 mul value (map (div indice0) indice).

(** [value_real.pct_change() * 100] *)
Definition real_monthly_change (value_real : list float64) : list float64 :=
  map (fun x => mul x (Fin 100)) (pct_change value_real).

(** [(value_real / value_real.iloc[0] - 1) * 100] *)
Definition real_cumulative_change (value_real : list float64) (first : float64)
  : list float64 :=
  map (fun x => mul (sub (div x first) (Fin 1)) (Fin 100)) value_real.

(** [((1 + real_monthly_change / 100) ** 12 - 1) * 100] *)
Definition real_annualized_change (monthly : list float64) : list float64 :=
  map (fun x =>
         mul (sub (pow (add (Fin 1) (div x (Fin 100))) 12) (Fin 1)) (Fin 100))
      monthly.

(** *** Compound growth (lines 117-142) *)

(** [df.groupby(key)]: the groups by ascending key, rows in table order. *)
Definition groupby (df : DataFrame) (key : string) : Run (list (Z * DataFrame)) :=
  keys <- get_int df key ;;
  ret (map (fun k => (k, mask_rows (map (Z.eqb k) keys) df)) (sorted_keys keys)).

(** [d[k] = v] on a dict, which keeps insertion order. *)
Fixpoint dict_set (d : list (Z * float64)) (k : Z) (v : float64)
  : list (Z * float64) :=
  match d with
  | [] => [(k, v)]
  | (k', v') :: d' =>
      if (k' =? k)%Z then (k', v) :: d' else (k', v') :: dict_set d' k v
  end.

(** The body of the loop of lines 119-124. *)
Definition cagr_year_step (acc : list (Z * float64)) (g : Z * DataFrame)
  : Run (list (Z * float64)) :=
  let (year, group) := g in
  vr <- get_float group "value_real" ;;
  valor_inicial <- iloc_first vr ;;
  vr <- get_float group "value_real" ;;
  valor_final <- iloc_last vr ;;
  let n_months := nrows group in
  e <- py_div 12 (INR n_months) ;;
  let cagr_year := sub (pow (div valor_final valor_inicial) e) (Fin 1) in
  ret (dict_set acc year (mul cagr_year (Fin 100))).

(** Lines 138-142.  The quotient of the two prices is a NumPy division; the
    two Python divisions are the day count by 365.25 and 1 by the years. *)
Definition whole_period_cagr (df : DataFrame) : Run float64 :=
  vr <- get_float df "value_real" ;;
  valor_inicial <- iloc_first vr ;;
  vr <- get_float df "value_real" ;;
  valor_final <- iloc_last vr ;;
  p <- get_date df "period" ;;
  p_last <- iloc_last p ;;
  p <- get_date df "period" ;;
  p_first <- iloc_first p ;;
  n_years <- py_div (IZR (days_between p_last p_first)) 365.25 ;;
  let ratio := div valor_final valor_inicial in
  e <- py_div 1 n_years ;;
  ret (sub (pow ratio e) (Fin 1)).

(** *** The script, top to bottom *)

Definition load (source : option (list GoldRow)) : Run (list GoldRow) :=
  match source with
  | Some df => ret df
  | None => raise FetchError
  end.

Definition load_csv (source : option (list IpcRow)) : Run (list IpcRow) :=
  match source with
  | Some df => ret df
  | None => raise ReadCsvError
  end.

(** Lines 68-110: the derived columns and their three charts. *)
Definition derived_columns (df : DataFrame) : Run DataFrame :=
  IPC <- get_float df "IPC" ;;
  ipc_base <- iloc_first IPC ;;                                   (* 68 *)
  IPC <- get_float df "IPC" ;;
  let df := assign df "IPC_indice" (ColFloat (IPC_indice IPC)) in (* 69 *)
  v <- get_float df "value" ;;
  indice <- get_float df "IPC_indice" ;;
  indice0 <- iloc_first indice ;;
  indice <- get_float df "IPC_indice" ;;
  let df := assign df "value_real"
              (ColFloat (value_real v indice0 indice)) in         (* 70 *)
  p <- get_date df "period" ;;
  v <- get_float df "value" ;;
  vr <- get_float df "value_real" ;;
  emit (Show "Precio mensual del oro: nominal vs real (ajustado por IPC)"
          [(ColDate p, ColFloat v); (ColDate p, ColFloat vr)]) ;;; (* 71-80 *)
  vr <- get_float df "value_real" ;;
  let df := assign df "real_monthly_change"
              (ColFloat (real_monthly_change vr)) in              (* 84 *)
  vr <- get_float df "value_real" ;;
  vr' <- get_float df "value_real" ;;
  first <- iloc_first vr' ;;
  let df := assign df "real_cumulative_change"
              (ColFloat (real_cumulative_change vr first)) in     (* 87 *)
  p <- get_date df "period" ;;
  c <- get_float df "real_cumulative_change" ;;
  emit (Show "Incremento acumulado real del precio del oro (ajustado por IPC) desde 2000"
          [(ColDate p, ColFloat c)]) ;;;                          (* 89-97 *)
  m <- get_float df "real_monthly_change" ;;
  let df := assign df "real_annualized_change"
              (ColFloat (real_annualized_change m)) in            (* 101 *)
  p <- get_date df "period" ;;
  a <- get_float df "real_annualized_change" ;;
  emit (Show "Tasa anualizada del incremento real del precio del oro (ajustado por IPC)"
          [(ColDate p, ColFloat a)]) ;;;                          (* 102-110 *)
  ret df.

(** Lines 117-135: the year column, the growth of each year and its chart. *)
Definition per_year (df : DataFrame) : Run (DataFrame * list (Z * float64)) :=
  p <- get_date df "period" ;;
  let df := assign df "year" (ColInt (map ts_year p)) in          (* 117 *)
  groups <- groupby df "year" ;;
  d <- for_each groups cagr_year_step [] ;;                       (* 118-124 *)
  emit (Show "CAGR anual del precio real del oro (ajustado por IPC)"
          [(ColInt (map fst d), ColFloat (map snd d))]) ;;;       (* 128-135 *)
  ret (df, d).

Definition script (w : World) : Run Result :=
  df <- load (fetch_series w) ;;                                  (* 30 *)
  let df_oro := df_oro_of df in                                   (* 44 *)
  emit (Show "Precio mensual del oro (EUR) desde 2000"
          [(ColDate (map period df_oro),
            ColFloat (map (fun r => Fin (value r)) df_oro))]) ;;; (* 46-53 *)
  df_ipc <- load_csv (read_csv w) ;;                              (* 59 *)
  let df_ipc := monthly_rows df_ipc in                            (* 60 *)
  periods <- to_datetime (map Periodo df_ipc) ;;                  (* 62 *)
  let df_ipc := combine periods (map Total df_ipc) in             (* 63 *)
  let df := frame_of (inner_join df_oro df_ipc) in                (* 65 *)
  df <- derived_columns df ;;                                       (* 68-110 *)
  emit (ToCsv "precio_oro_eur.csv" df) ;;;                        (* 113 *)
  yd <- per_year df ;;                                            (* 117-135 *)
  let (df, d) := yd in
  c <- whole_period_cagr df ;;                                    (* 138-142 *)
  emit (Print (mul c (Fin 100))) ;;;                              (* 143 *)
  ret (mkResult df d c).

(** A run: its outputs in order, and how it ended. *)
Definition run (w : World) : list Event * (Exn + Result) := script w.

Definition outputs (w : World) : list Event := fst (run w).
Definition outcome (w : World) : Exn + Result := snd (run w).

End Oro.

Export Oro.

(* ===================================================================== *)
(** ** The values of a run, named *)

(** What the statements of the script compute from the joined rows, written
    as expressions of the rows.  The lemmas below show that the run produces
    exactly these. *)
Module Values.
Open Scope string_scope.
Open Scope R_scope.

(** The joined rows of the two downloads, when every period text parses. *)
Definition merged_rows (gold : list GoldRow) (ipc : list IpcRow)
  : option (list (GoldRow * R)) :=
  match parse_all (map Periodo (monthly_rows ipc)) with
  | Some ps =>
      Some (inner_join (df_oro_of gold) (combine ps (map Total (monthly_rows ipc))))
  | None => None
  end.

Definition periods (rows : list (GoldRow * R)) : list Timestamp :=
  map (fun r => period (fst r)) rows.
Definition values (rows : list (GoldRow * R)) : list float64 :=
  map (fun r => Fin (value (fst r))) rows.
Definition rates (rows : list (GoldRow * R)) : list float64 :=
  map (fun r => Fin (snd r)) rows.

Definition indice (rows : list (GoldRow * R)) : list float64 :=
  IPC_indice (rates rows).
Definition reals (rows : list (GoldRow * R)) : list float64 :=
  value_real (values rows) (hd NaN (indice rows)) (indice rows).

(** The table after line 101: the eight columns the CSV is written from. *)
Definition table (rows : list (GoldRow * R)) : DataFrame :=
  [ ("period", ColDate (periods rows));
    ("value", ColFloat (values rows));
    ("IPC", ColFloat (rates rows));
    ("IPC_indice", ColFloat (indice rows));
    ("value_real", ColFloat (reals rows));
    ("real_monthly_change", ColFloat (real_monthly_change (reals rows)));
    ("real_cumulative_change",
      ColFloat (real_cumulative_change (reals rows) (hd NaN (reals rows))));
    ("real_annualized_change",
      ColFloat (real_annualized_change (real_monthly_change (reals rows)))) ].

Definition years (rows : list (GoldRow * R)) : list Z :=
  map ts_year (periods rows).

(** The table after line 117. *)
Definition table_with_year (rows : list (GoldRow * R)) : DataFrame :=
  (table rows ++ [("year", ColInt (years rows))])%list.

(** The growth of year [k], in percent (lines 120-124). *)
Definition year_growth (rows : list (GoldRow * R)) (k : Z) : float64 :=
  let mask := map (Z.eqb k) (years rows) in
  let vr := mask_list mask (reals rows) in
  let n_months := List.length (mask_list mask (periods rows)) in
  mul (sub (pow (div (last vr NaN) (hd NaN vr)) (12 / INR n_months)) (Fin 1))
      (Fin 100).

Definition growth_by_year (rows : list (GoldRow * R)) : list (Z * float64) :=
  fold_left (fun d k => dict_set d k (year_growth rows k))
            (sorted_keys (years rows)) [].

(** Days from the first period of the table to its last. *)
Definition span_days (rows : list (GoldRow * R)) : Z :=
  days_between (last (periods rows) start_date) (hd start_date (periods rows)).

Definition n_years (rows : list (GoldRow * R)) : R :=
  IZR (span_days rows) / 365.25.

(** The quotient of the last deflated price by the first. *)
Definition ratio (rows : list (GoldRow * R)) : float64 :=
  div (last (reals rows) NaN) (hd NaN (reals rows)).

(** The growth over the whole period (line 142). *)
Definition growth (rows : list (GoldRow * R)) : float64 :=
  sub (pow (ratio rows) (1 / n_years rows)) (Fin 1).

(** The outputs, in the order of the script. *)
Definition nominal_chart (gold : list GoldRow) : Event :=
  Show "Precio mensual del oro (EUR) desde 2000"
    [(ColDate (map period (df_oro_of gold)),
      ColFloat (map (fun r => Fin (value r)) (df_oro_of gold)))].

Definition charts (rows : list (GoldRow * R)) : list Event :=
  [ Show "Precio mensual del oro: nominal vs real (ajustado por IPC)"
      [(ColDate (periods rows), ColFloat (values rows));
       (ColDate (periods rows), ColFloat (reals rows))];
    Show "Incremento acumulado real del precio del oro (ajustado por IPC) desde 2000"
      [(ColDate (periods rows),
        ColFloat (real_cumulative_change (reals rows) (hd NaN (reals rows))))];
    Show "Tasa anualizada del incremento real del precio del oro (ajustado por IPC)"
      [(ColDate (periods rows),
        ColFloat (real_annualized_change (real_monthly_change (reals rows))))] ].

Definition bar_chart (rows : list (GoldRow * R)) : Event :=
  Show "CAGR anual del precio real del oro (ajustado por IPC)"
    [(ColInt (map fst (growth_by_year rows)),
      ColFloat (map snd (growth_by_year rows)))].

(** Everything a run has put out when it reaches line 138. *)
Definition outputs_before_cagr (gold : list GoldRow) (rows : list (GoldRow * R))
  : list Event :=
  (nominal_chart gold :: charts rows
     ++ [ToCsv "precio_oro_eur.csv" (table rows); bar_chart rows])%list.

(** The kind of an output, and the tables that were written. *)
Inductive Kind : Type := Chart | CsvFile | Printed.

Definition kind (ev : Event) : Kind :=
  match ev with
  | Show _ _ => Chart
  | ToCsv _ _ => CsvFile
  | Print _ => Printed
  end.

Definition written_tables (evs : list Event) : list (string * DataFrame) :=
  flat_map (fun ev => match ev with ToCsv p df => [(p, df)] | _ => [] end) evs.

(** What the run leaves of the whole-period growth: the value, or the
    exception that stopped the run. *)
Definition final_cagr (w : World) : Exn + float64 :=
  match outcome w with
  | inl e => inl e
  | inr r => inr (cagr r)
  end.

(** The real-valued index of a sequence of rates: 100 times the running
    product of [1 + rate/100]. *)
Fixpoint running_product (acc : R) (rs : list R) : list R :=
  match rs with
  | [] => []
  | r :: rs' => acc * r :: running_product (acc * r) rs'
  end.

Definition real_index (rs : list R) : list R :=
  map (Rmult 100) (running_product 1 (map (fun r => 1 + r / 100) rs)).

(** Every nominal price multiplied by [k]. *)
Definition scale_gold (k : R) (gold : list GoldRow) : list GoldRow :=
  map (fun g => mkGold (period g) (k * value g)) gold.

Definition scale_world (k : R) (w : World) : World :=
  mkWorld (option_map (scale_gold k) (fetch_series w)) (read_csv w)
          (clock w) (random_state w) (environ w).

End Values.
Export Values.

(* ===================================================================== *)
(** ** Positions, scaling and the columns of the file *)

Module Access.
Open Scope string_scope.
Open Scope R_scope.

Definition rate_at (rows : list (GoldRow * R)) (i : nat) : R :=
  nth i (map snd rows) 0.
Definition value_at (rows : list (GoldRow * R)) (i : nat) : R :=
  nth i (map (fun r => value (fst r)) rows) 0.
Definition index_at (rows : list (GoldRow * R)) (i : nat) : float64 :=
  nth i (indice rows) NaN.
Definition real_at (rows : list (GoldRow * R)) (i : nat) : float64 :=
  nth i (reals rows) NaN.
Definition scale_rows (k : R) (rows : list (GoldRow * R)) : list (GoldRow * R) :=
  map (fun r => (mkGold (period (fst r)) (k * value (fst r)), snd r)) rows.
Definition csv_columns : list string :=
  ["period"; "value"; "IPC"; "IPC_indice"; "value_real"; "real_monthly_change";
   "real_cumulative_change"; "real_annualized_change"].
Definition positive (x : float64) : Prop := exists v, x = Fin v /\ 0 < v.
End Access.
Export Access.

(* ===================================================================== *)
(** ** Sample runs *)

Module Examples.
Open Scope string_scope.
Open Scope R_scope.

Definition jan : Timestamp := mkTimestamp 2000 1 1.
Definition feb : Timestamp := mkTimestamp 2000 2 1.
Definition mar : Timestamp := mkTimestamp 2000 3 1.

Definition monthly (t : Timestamp) (rate : R) : IpcRow :=
  mkIpc "Variación mensual" (Some t) rate.

Definition world_of (gold : list GoldRow) (ipc : list IpcRow) : World :=
  mkWorld (Some gold) (Some ipc) 0 0 [].

(** The three months of the scenario of the specification. *)
Definition gold_q1 : list GoldRow := [mkGold jan 100; mkGold feb 102; mkGold mar 101].
Definition ipc_q1 : list IpcRow := [monthly jan 0.5; monthly feb 0.3; monthly mar (-0.1)].
Definition rows_q1 : list (GoldRow * R) :=
  [(mkGold jan 100, 0.5); (mkGold feb 102, 0.3); (mkGold mar 101, -0.1)].
Definition world_q1 : World := world_of gold_q1 ipc_q1.

(** One month only. *)
Definition gold_jan : list GoldRow := [mkGold jan 100].
Definition ipc_jan : list IpcRow := [monthly jan 0.5].
Definition rows_jan : list (GoldRow * R) := [(mkGold jan 100, 0.5)].
Definition world_jan : World := world_of gold_jan ipc_jan.

(** No CPI row at all. *)
Definition world_no_cpi : World := world_of gold_jan [].

(** A first month whose prices fall by 100 percent. *)
Definition rows_wipeout : list (GoldRow * R) := [(mkGold jan 100, -100)].
(** A second month whose prices fall by 100 percent. *)
Definition rows_wipeout_feb : list (GoldRow * R) :=
  [(mkGold jan 100, 0.5); (mkGold feb 102, -100)].

(** A negative price in the second month. *)
Definition gold_negative : list GoldRow := [mkGold jan 100; mkGold feb (-100)].
Definition ipc_flat : list IpcRow := [monthly jan 0; monthly feb 0].
Definition rows_negative : list (GoldRow * R) :=
  [(mkGold jan 100, 0); (mkGold feb (-100), 0)].
Definition world_negative : World := world_of gold_negative ipc_flat.
End Examples.
Export Examples.

(* ===================================================================== *)
(** ** Vocabulary of the further properties *)

Module Derived.
Open Scope string_scope.
Open Scope R_scope.


(** A month as a count of months since year 0. *)
Definition month_index (t : Timestamp) : Z := (12 * ts_year t + ts_month t)%Z.

(** The first day of a month of the calendar. *)
Definition first_of_month (t : Timestamp) : Prop :=
  (1 <= ts_month t <= 12)%Z /\ ts_day t = 1%Z.

(** A gold row has a partner in the CPI frame. *)
Definition has_partner (df_ipc : list (Timestamp * R)) (g : GoldRow) : bool :=
  existsb (fun c => ts_eqb (fst c) (period g)) df_ipc.

(** No two rows of the CPI frame are of the same period. *)
Fixpoint unique_periods (df_ipc : list (Timestamp * R)) : Prop :=
  match df_ipc with
  | [] => True
  | c :: rest =>
      (forall c', In c' rest -> ts_eqb (fst c') (fst c) = false)
      /\ unique_periods rest
  end.

(** The deflated prices of year [k], in table order. *)
Definition year_reals (rows : list (GoldRow * R)) (k : Z) : list float64 :=
  mask_list (map (Z.eqb k) (years rows)) (reals rows).

(** No rate of -100 and no price of 0: every deflated price is a number
    other than 0. *)
Definition regular (rows : list (GoldRow * R)) : Prop :=
  Forall (fun r => snd r <> -100 /\ value (fst r) <> 0) rows.

(** The periods are first days of months, in strictly ascending order. *)
Definition chronological (rows : list (GoldRow * R)) : Prop :=
  Forall first_of_month (periods rows)
  /\ StronglySorted (fun a b => (month_index a < month_index b)%Z) (periods rows).

(** Months of the table in year [k]. *)
Definition months_in (rows : list (GoldRow * R)) (k : Z) : nat :=
  List.length (mask_list (map (Z.eqb k) (years rows)) (periods rows)).


Definition full_run_kinds : list Kind :=
  [Chart; Chart; Chart; Chart; CsvFile; Chart; Printed].

(** The twelve months of 2001, prices from 301 to 312, inflation 0.2. *)
Definition rows_2001 : list (GoldRow * R) :=
  map (fun m => (mkGold (mkTimestamp 2001 m 1) (300 + IZR m), 0.2))
      [1; 2; 3; 4; 5; 6; 7; 8; 9; 10; 11; 12]%Z.

(** A day of the calendar, as far as the comparison of line 44 needs it. *)
Definition calendar_day (t : Timestamp) : Prop :=
  (1 <= ts_month t)%Z /\ (1 <= ts_day t)%Z.

End Derived.
Export Derived.

(* ===================================================================== *)
(** ** Binary64 *)

(** Lines 69, 70 and the quotient of line 142 once more, this time in the
    binary64 arithmetic of IEEE 754 (round to nearest, ties to even), to
    measure what the exact reals of [Float] leave out: rounding, overflow and
    underflow. *)
Module IEEE.
Open Scope string_scope.
Open Scope R_scope.

Definition prec : Z := 53.
Definition emax : Z := 1024.

(** The double nearest to an integer, and to the quotient of two integers
    (a decimal literal such as 0.3 is [decimal 3 10]). *)
Definition of_Z (z : Z) : spec_float := binary_normalize prec emax z 0 false.
Definition add64 : spec_float -> spec_float -> spec_float := SFadd prec emax.
Definition mul64 : spec_float -> spec_float -> spec_float := SFmul prec emax.
Definition div64 : spec_float -> spec_float -> spec_float := SFdiv prec emax.
Definition decimal (n d : Z) : spec_float := div64 (of_Z n) (of_Z d).

(** [s.cumprod()] *)
Fixpoint cumprod64_from (acc : spec_float) (s : list spec_float) : list spec_float :=
  match s with
  | [] => []
  | S754_nan :: s' => S754_nan :: cumprod64_from acc s'
  | x :: s' => let acc' := mul64 acc x in acc' :: cumprod64_from acc' s'
  end.

Definition cumprod64 (s : list spec_float) : list spec_float :=
  match s with
  | [] => []
  | S754_nan :: s' => S754_nan :: cumprod64_from (of_Z 1) s'
  | x :: s' => x :: cumprod64_from x s'
  end.

(** [100 * (1 + IPC / 100).cumprod()] *)
Definition IPC_indice64 (IPC : list spec_float) : list spec_float :=
  map (mul64 (of_Z 100))
      (cumprod64 (map (fun r => add64 (of_Z 1) (div64 r (of_Z 100))) IPC)).

(** [value * (IPC_indice.iloc[0] / IPC_indice)] *)
Definition value_real64 (value : list spec_float) (indice : list spec_float)
  : list spec_float :=
  map2 mul64 value (map (div64 (hd S754_nan indice)) indice).

(** [valor_final / valor_inicial] *)
Definition ratio64 (value_real : list spec_float) : spec_float :=
  div64 (last value_real S754_nan) (hd S754_nan value_real).

(** A double as a number of [Float]. *)
Definition to_float (x : spec_float) : float64 :=
  match x with
  | S754_zero _ => Fin 0
  | S754_infinity false => PInf
  | S754_infinity true => NInf
  | S754_nan => NaN
  | S754_finite s m e => Fin (IZR (cond_Zopp s (Zpos m)) * powerRZ 2 e)
  end.

(** Line 142 on a quotient computed in binary64; the power is that of
    [Float]. *)
Definition growth64 (quotient : spec_float) (years : R) : float64 :=
  sub (pow (to_float quotient) (1 / years)) (Fin 1).

(** The scenario of the specification. *)
Definition prices_q1 : list spec_float := [of_Z 100; of_Z 102; of_Z 101].
Definition rates_q1 : list spec_float := [decimal 5 10; decimal 3 10; decimal (-1) 10].

(** Every price multiplied by [k]. *)
Definition scale64 (k : spec_float) (value : list spec_float) : list spec_float :=
  map (mul64 k) value.

(** 1e307 *)
Definition ten_to_307 : spec_float := of_Z (10 ^ 307).

(** Fifty months at -99.99999 percent. *)
Definition rates_crash : list spec_float := repeat (decimal (-9999999) 100000) 50.

End IEEE.
Export IEEE.

(* ===================================================================== *)
(** ** The run as a function of the two downloads *)

Module Closed.
Open Scope string_scope.
Open Scope R_scope.


(** The turn of the year: December 2000 and January 2001. *)
Definition rows_turn : list (GoldRow * R) :=
  [(mkGold (mkTimestamp 2000 12 1) 100, 0.5); (mkGold (mkTimestamp 2001 1 1) 102, 0.3)].
Definition world_turn : World :=
  world_of (map fst rows_turn)
           (map (fun r => monthly (period (fst r)) (snd r)) rows_turn).

(** The twelve months of 2001 as two downloads. *)
Definition world_2001 : World :=
  world_of (map fst rows_2001)
           (map (fun r => monthly (period (fst r)) (snd r)) rows_2001).

End Closed.
Export Closed.

(* ===================================================================== *)
(** * Properties *)

Open Scope string_scope.
Open Scope R_scope.

(** The column expressions stay folded while a run is unfolded. *)
Arguments IPC_indice : simpl never.
Arguments value_real : simpl never.
Arguments real_monthly_change : simpl never.
Arguments real_cumulative_change : simpl never.
Arguments real_annualized_change : simpl never.
Arguments sorted_keys : simpl never.

(** ** Facts about the numbers *)
Section FloatFacts.

Lemma Rsign_pos x : 0 < x -> Rsign x = Gt.
Proof. intros H. unfold Rsign. destruct (total_order_T x 0) as [[?|?]|?]; trivial; lra. Qed.

Lemma Rsign_neg x : x < 0 -> Rsign x = Lt.
Proof. intros H. unfold Rsign. destruct (total_order_T x 0) as [[?|?]|?]; trivial; lra. Qed.

Lemma Rsign_zero : Rsign 0 = Eq.
Proof. unfold Rsign. destruct (total_order_T 0 0) as [[?|?]|?]; trivial; lra. Qed.

Lemma Rsign_Gt x : Rsign x = Gt -> 0 < x.
Proof. unfold Rsign. destruct (total_order_T x 0) as [[?|?]|?]; intros; try discriminate; lra. Qed.

Lemma Rsign_Lt x : Rsign x = Lt -> x < 0.
Proof. unfold Rsign. destruct (total_order_T x 0) as [[?|?]|?]; intros; try discriminate; lra. Qed.

Lemma Rsign_Eq x : Rsign x = Eq -> x = 0.
Proof. unfold Rsign. destruct (total_order_T x 0) as [[?|?]|?]; intros; try discriminate; lra. Qed.

Lemma Rsign_scale k x : 0 < k -> Rsign (k * x) = Rsign x.
Proof.
  intros Hk. destruct (Rsign x) eqn:E.
  - apply Rsign_Eq in E. subst. rewrite Rmult_0_r. apply Rsign_zero.
  - apply Rsign_Lt in E. apply Rsign_neg. nra.
  - apply Rsign_Gt in E. apply Rsign_pos. nra.
Qed.

Lemma div_fin a b : b <> 0 -> div (Fin a) (Fin b) = Fin (a / b).
Proof. intros H. simpl. destruct (Req_dec_T b 0); [contradiction | reflexivity]. Qed.

Lemma div_zero a : div (Fin a) (Fin 0) = scale_inf (Rsign a) PInf.
Proof. simpl. destruct (Req_dec_T 0 0); [reflexivity | contradiction]. Qed.

Lemma div_zero_zero : div (Fin 0) (Fin 0) = NaN.
Proof. rewrite div_zero, Rsign_zero. reflexivity. Qed.

Lemma div_100 a : div (Fin a) (Fin 100) = Fin (a / 100).
Proof. apply div_fin. lra. Qed.

Lemma sub_nan x : sub NaN x = NaN.
Proof. reflexivity. Qed.

Lemma mul_nan_l x : mul NaN x = NaN.
Proof. reflexivity. Qed.

(** A negative base and an exponent that is not whole: NaN. *)
Lemma pow_negative_fraction x e :
  x < 0 -> is_integer e = false -> pow (Fin x) e = NaN.
Proof.
  intros Hx He. unfold pow.
  assert (e <> 0) as Hne.
  { intros ->. unfold is_integer in He.
    destruct (Req_dec_T (IZR (Int_part 0)) 0) as [|n]; [discriminate|].
    apply n. rewrite <- (Int_part_spec 0 0%Z); [reflexivity | lra]. }
  destruct (Rsign e) eqn:E.
  - apply Rsign_Eq in E. contradiction.
  - rewrite (Rsign_neg x Hx), He. reflexivity.
  - rewrite (Rsign_neg x Hx), He. reflexivity.
Qed.

(** Strictly between two consecutive whole numbers there is none. *)
Lemma between_not_integer (z : Z) (e : R) :
  IZR z < e < IZR (z + 1) -> is_integer e = false.
Proof.
  intros [Hlo Hhi]. unfold is_integer.
  destruct (Req_dec_T (IZR (Int_part e)) e) as [Heq|]; [|reflexivity].
  exfalso. rewrite <- Heq in Hlo, Hhi.
  apply lt_IZR in Hlo, Hhi. lia.
Qed.

(** Scaling by a positive constant. *)
Lemma mul_scale_assoc k v q :
  0 < k -> mul (Fin (k * v)) q = mul (Fin k) (mul (Fin v) q).
Proof.
  intros Hk. destruct q; simpl; trivial.
  - f_equal. ring.
  - rewrite (Rsign_scale k v Hk). destruct (Rsign v); simpl; trivial; now rewrite (Rsign_pos k Hk).
  - rewrite (Rsign_scale k v Hk). destruct (Rsign v); simpl; trivial; now rewrite (Rsign_pos k Hk).
Qed.

Lemma div_scale k a b :
  0 < k -> div (mul (Fin k) a) (mul (Fin k) b) = div a b.
Proof.
  intros Hk.
  destruct a as [a| | |], b as [b| | |]; simpl; rewrite ?(Rsign_pos k Hk); simpl; trivial.
  - destruct (Req_dec_T (k * b) 0) as [E|E], (Req_dec_T b 0) as [E'|E'].
    + now rewrite (Rsign_scale k a Hk).
    + exfalso. apply E'. nra.
    + exfalso. apply E. subst. ring.
    + f_equal. field. lra.
  - now rewrite (Rsign_scale k b Hk).
  - now rewrite (Rsign_scale k b Hk).
Qed.

End FloatFacts.

(** ** Facts about columns *)
Section ColumnFacts.

Lemma nonempty_length {A} (s : list A) : s <> [] <-> (0 < length s)%nat.
Proof. destruct s; simpl; split; intros; try congruence; lia. Qed.

Lemma length_cumprod_from acc s : length (cumprod_from acc s) = length s.
Proof.
  revert acc; induction s as [|x s IH]; intros acc; [reflexivity|].
  destruct x; simpl; now rewrite IH.
Qed.

Lemma length_cumprod s : length (cumprod s) = length s.
Proof.
  destruct s as [|x s]; [reflexivity|].
  destruct x; simpl; now rewrite length_cumprod_from.
Qed.

Lemma length_IPC_indice s : length (IPC_indice s) = length s.
Proof. unfold IPC_indice. now rewrite length_map, length_cumprod, length_map. Qed.

Lemma length_map2 {A B C} (f : A -> B -> C) xs ys :
  length xs = length ys -> length (map2 f xs ys) = length xs.
Proof.
  revert ys; induction xs as [|x xs IH]; intros [|y ys] H; simpl in *; try congruence.
  now rewrite IH by congruence.
Qed.

Lemma nth_map2 {A B C} (f : A -> B -> C) xs ys i dx dy dz :
  length xs = length ys -> (i < length xs)%nat ->
  nth i (map2 f xs ys) dz = f (nth i xs dx) (nth i ys dy).
Proof.
  revert ys i; induction xs as [|x xs IH]; intros [|y ys] i H Hi; simpl in *; try lia.
  destruct i; [reflexivity|]. apply IH; lia.
Qed.

Lemma map2_map_l {A A' B C} (f : A' -> B -> C) (g : A -> A') xs ys :
  map2 f (map g xs) ys = map2 (fun x y => f (g x) y) xs ys.
Proof.
  revert ys; induction xs as [|x xs IH]; intros [|y ys]; simpl; trivial. now rewrite IH.
Qed.

Lemma map_map2 {A B C D} (f : A -> B -> C) (g : C -> D) xs ys :
  map g (map2 f xs ys) = map2 (fun x y => g (f x y)) xs ys.
Proof.
  revert ys; induction xs as [|x xs IH]; intros [|y ys]; simpl; trivial. now rewrite IH.
Qed.

Lemma map2_ext {A B C} (f g : A -> B -> C) xs ys :
  (forall x y, f x y = g x y) -> map2 f xs ys = map2 g xs ys.
Proof.
  intros H. revert ys; induction xs as [|x xs IH]; intros [|y ys]; simpl; trivial.
  now rewrite H, IH.
Qed.

Lemma last_cons {A} (x d : A) s : last (x :: s) d = last s x.
Proof.
  revert x d; induction s as [|y s IH]; intros x d; [reflexivity|].
  change (last (x :: y :: s) d) with (last (y :: s) d).
  now rewrite !IH.
Qed.

Lemma last_map {A B} (f : A -> B) s d : last (map f s) (f d) = f (last s d).
Proof.
  induction s as [|x s IH]; [reflexivity|].
  simpl. destruct s; [reflexivity|]. exact IH.
Qed.

Lemma hd_map {A B} (f : A -> B) s d : hd (f d) (map f s) = f (hd d s).
Proof. destruct s; reflexivity. Qed.

Lemma iloc_first_hd {A} (d : A) (s : list A) :
  s <> [] -> iloc_first s = ret (hd d s).
Proof. destruct s; [congruence | reflexivity]. Qed.

Lemma iloc_last_last {A} (d : A) (s : list A) :
  s <> [] -> iloc_last s = ret (last s d).
Proof. destruct s; [congruence |]. intros _. simpl iloc_last. now rewrite last_cons. Qed.

(** The index of finite rates is finite: it is the real-valued index. *)
Lemma cumprod_from_fin acc rs :
  cumprod_from (Fin acc) (map Fin rs) = map Fin (running_product acc rs).
Proof.
  revert acc; induction rs as [|r rs IH]; intros acc; [reflexivity|].
  simpl. now rewrite IH.
Qed.

Lemma cumprod_fin rs : cumprod (map Fin rs) = map Fin (running_product 1 rs).
Proof.
  destruct rs as [|r rs]; [reflexivity|].
  simpl. rewrite cumprod_from_fin, Rmult_1_l. reflexivity.
Qed.

Lemma IPC_indice_fin rs : IPC_indice (map Fin rs) = map Fin (real_index rs).
Proof.
  unfold IPC_indice, real_index.
  rewrite map_map.
  rewrite (map_ext _ (fun r => Fin (1 + r / 100))).
  2:{ intros r. rewrite div_100. reflexivity. }
  rewrite <- (map_map (fun r => 1 + r / 100) Fin), cumprod_fin, !map_map.
  reflexivity.
Qed.

Lemma length_running_product acc rs : length (running_product acc rs) = length rs.
Proof. revert acc; induction rs; intros; simpl; auto. Qed.

Lemma length_real_index rs : length (real_index rs) = length rs.
Proof. unfold real_index. now rewrite length_map, length_running_product, length_map. Qed.

(** The running product, position by position. *)
Lemma running_product_step acc rs i :
  (S i < length rs)%nat ->
  nth (S i) (running_product acc rs) 0 = nth i (running_product acc rs) 0 * nth (S i) rs 0.
Proof.
  revert acc i; induction rs as [|r rs IH]; intros acc i H; simpl in *; [lia|].
  destruct i.
  - destruct rs; simpl in *; [lia | reflexivity].
  - apply IH. lia.
Qed.

Lemma running_product_pos acc rs :
  0 < acc -> Forall (fun r => 0 < r) rs -> Forall (fun x => 0 < x) (running_product acc rs).
Proof.
  revert acc; induction rs as [|r rs IH]; intros acc Hacc H; simpl; constructor;
    inversion H; subst.
  - nra.
  - apply IH; [nra | assumption].
Qed.

Lemma running_product_nonzero acc rs i :
  acc <> 0 -> (i < length rs)%nat -> (forall j, (j <= i)%nat -> nth j rs 0 <> 0) ->
  nth i (running_product acc rs) 0 <> 0.
Proof.
  revert acc i; induction rs as [|r rs IH]; intros acc i Hacc Hi H; simpl in *; [lia|].
  assert (r <> 0) by (apply (H 0%nat); lia).
  destruct i.
  - nra.
  - apply IH; [nra | lia |]. intros j Hj. apply (H (S j)). lia.
Qed.

End ColumnFacts.

(** ** The run, statement by statement *)
Section RunFacts.

Lemma bind_ret {E A B} (a : A) (f : A -> M E B) : bind (ret a) f = f a.
Proof. unfold bind, ret. simpl. now destruct (f a). Qed.

Lemma bind_raise {E A B} (e : Exn) (f : A -> M E B) : bind (raise e) f = raise e.
Proof. reflexivity. Qed.

Lemma length_periods rows : length (periods rows) = length rows.
Proof. apply length_map. Qed.
Lemma length_values rows : length (values rows) = length rows.
Proof. apply length_map. Qed.
Lemma length_rates rows : length (rates rows) = length rows.
Proof. apply length_map. Qed.
Lemma length_years rows : length (years rows) = length rows.
Proof. unfold years. now rewrite length_map, length_periods. Qed.
Lemma length_indice rows : length (indice rows) = length rows.
Proof. unfold indice. now rewrite length_IPC_indice, length_rates. Qed.
Lemma length_reals rows : length (reals rows) = length rows.
Proof.
  unfold reals, value_real. rewrite length_map2; [apply length_values|].
  now rewrite length_map, length_values, length_indice.
Qed.

Lemma derived_columns_empty : derived_columns (frame_of []) = ([], inl IndexError).
Proof. reflexivity. Qed.

Lemma derived_columns_frame rows :
  rows <> [] -> derived_columns (frame_of rows) = (charts rows, inr (table rows)).
Proof.
  intros Hne. apply nonempty_length in Hne.
  assert (Hrt : rates rows <> []) by (apply nonempty_length; now rewrite length_rates).
  assert (Hi : indice rows <> []) by (apply nonempty_length; now rewrite length_indice).
  assert (Hr : reals rows <> []) by (apply nonempty_length; now rewrite length_reals).
  unfold derived_columns, frame_of. cbn.
  fold (rates rows) (values rows) (periods rows).
  rewrite (iloc_first_hd NaN (rates rows) Hrt). cbn.
  fold (indice rows).
  rewrite (iloc_first_hd NaN (indice rows) Hi). cbn.
  fold (reals rows).
  rewrite (iloc_first_hd NaN (reals rows) Hr). cbn.
  reflexivity.
Qed.

Lemma insert_key_In k x l : In k (insert_key x l) -> k = x \/ In k l.
Proof.
  induction l as [|y l IH]; simpl.
  - intros [->|[]]. now left.
  - destruct (x <? y)%Z.
    + intros [->|H]; [now left | now right].
    + destruct (x =? y)%Z.
      * intros H. now right.
      * intros [->|H]; [right; now left|].
        destruct (IH H) as [->|?]; [now left | right; now right].
Qed.

Lemma sorted_keys_In k l : In k (sorted_keys l) -> In k l.
Proof.
  unfold sorted_keys. induction l as [|x l IH]; simpl; [tauto|].
  intros H. apply insert_key_In in H. destruct H as [->|H]; [now left | right; auto].
Qed.

Lemma mask_nonempty {A} k ks (l : list A) :
  In k ks -> length l = length ks -> mask_list (map (Z.eqb k) ks) l <> [].
Proof.
  revert l; induction ks as [|x ks IH]; intros l Hin Hlen; [destruct Hin|].
  destruct l as [|a l]; [discriminate|]. simpl.
  destruct (Z.eqb_spec k x) as [->|Hne]; [discriminate|].
  destruct Hin as [->|Hin]; [congruence|].
  apply IH; [assumption | simpl in Hlen; congruence].
Qed.

Lemma cagr_year_step_group rows acc k :
  In k (years rows) ->
  cagr_year_step acc (k, mask_rows (map (Z.eqb k) (years rows)) (table_with_year rows))
  = ret (dict_set acc k (year_growth rows k)).
Proof.
  intros Hin.
  assert (Hv : mask_list (map (Z.eqb k) (years rows)) (reals rows) <> [])
    by (apply mask_nonempty; [assumption | now rewrite length_reals, length_years]).
  assert (Hp : mask_list (map (Z.eqb k) (years rows)) (periods rows) <> [])
    by (apply mask_nonempty; [assumption | now rewrite length_periods, length_years]).
  unfold cagr_year_step, table_with_year, table. cbn.
  rewrite (iloc_first_hd NaN _ Hv). cbn.
  rewrite (iloc_last_last NaN _ Hv). cbn.
  unfold py_div.
  destruct (Req_dec_T (INR (length (mask_list (map (Z.eqb k) (years rows)) (periods rows)))) 0)
    as [E|E].
  - exfalso. apply nonempty_length in Hp. apply (not_0_INR _ ) in E; [exact E | lia].
  - cbn. reflexivity.
Qed.

Lemma for_each_groups rows keys acc :
  (forall k, In k keys -> In k (years rows)) ->
  for_each (map (fun k => (k, mask_rows (map (Z.eqb k) (years rows)) (table_with_year rows))) keys)
           cagr_year_step acc
  = ret (fold_left (fun d k => dict_set d k (year_growth rows k)) keys acc).
Proof.
  revert acc; induction keys as [|k keys IH]; intros acc H; [reflexivity|].
  cbn [for_each map]. rewrite cagr_year_step_group by (apply H; now left).
  rewrite bind_ret. apply IH. intros k' Hk'. apply H. now right.
Qed.

Lemma get_date_period rows : get_date (table rows) "period" = ret (periods rows).
Proof. reflexivity. Qed.

Lemma assign_year rows c : assign (table rows) "year" c = (table rows ++ [("year", c)])%list.
Proof. reflexivity. Qed.

Lemma groupby_year rows :
  groupby (table_with_year rows) "year"
  = ret (map (fun k => (k, mask_rows (map (Z.eqb k) (years rows)) (table_with_year rows)))
             (sorted_keys (years rows))).
Proof. reflexivity. Qed.

Lemma per_year_table rows :
  per_year (table rows)
  = ([bar_chart rows], inr (table_with_year rows, growth_by_year rows)).
Proof.
  unfold per_year.
  rewrite get_date_period, bind_ret. cbv beta zeta.
  rewrite assign_year. fold (years rows). fold (table_with_year rows).
  rewrite groupby_year, bind_ret.
  rewrite for_each_groups by (intros k; apply sorted_keys_In).
  rewrite bind_ret. fold (growth_by_year rows).
  reflexivity.
Qed.

Lemma whole_period_cagr_table rows :
  rows <> [] ->
  whole_period_cagr (table_with_year rows)
  = if (span_days rows =? 0)%Z then raise ZeroDivisionError else ret (growth rows).
Proof.
  intros Hne. apply nonempty_length in Hne.
  assert (Hr : reals rows <> []) by (apply nonempty_length; now rewrite length_reals).
  assert (Hp : periods rows <> []) by (apply nonempty_length; now rewrite length_periods).
  unfold whole_period_cagr.
  change (get_float (table_with_year rows) "value_real") with (@ret Event _ (reals rows)).
  change (get_date (table_with_year rows) "period") with (@ret Event _ (periods rows)).
  rewrite !bind_ret.
  rewrite (iloc_first_hd NaN _ Hr), bind_ret, bind_ret.
  rewrite (iloc_last_last NaN _ Hr), bind_ret, bind_ret.
  rewrite (iloc_last_last start_date _ Hp), bind_ret, bind_ret.
  rewrite (iloc_first_hd start_date _ Hp), bind_ret.
  fold (span_days rows).
  unfold py_div at 1.
  destruct (Req_dec_T 365.25 0) as [E|_]; [lra|].
  rewrite bind_ret. cbv zeta. fold (n_years rows). fold (ratio rows).
  unfold py_div.
  destruct (Req_dec_T (n_years rows) 0) as [E|E];
    destruct (Z.eqb_spec (span_days rows) 0) as [Z0|Z0]; trivial.
  - exfalso. unfold n_years in E. apply Z0. apply eq_IZR. lra.
  - exfalso. apply E. unfold n_years. rewrite Z0. lra.
Qed.

End RunFacts.

(** ** The run in closed form *)

Section RunCases.
Variables (w : World) (gold : list GoldRow).
Hypothesis Hgold : fetch_series w = Some gold.

Lemma bind_emit {A} (ev : Event) (f : unit -> Run A) :
  bind (emit ev) f = (ev :: fst (f tt), snd (f tt)).
Proof. reflexivity. Qed.

Lemma run_fetch_fails w' : fetch_series w' = None -> run w' = ([], inl FetchError).
Proof. intros H. unfold run, script. rewrite H. reflexivity. Qed.

Lemma run_read_fails :
  read_csv w = None -> run w = ([nominal_chart gold], inl ReadCsvError).
Proof. intros H. unfold run, script. rewrite Hgold, H. reflexivity. Qed.

Variable ipc : list IpcRow.
Hypothesis Hipc : read_csv w = Some ipc.

Lemma run_parse_fails :
  merged_rows gold ipc = None -> run w = ([nominal_chart gold], inl DateParseError).
Proof.
  intros H. unfold run, script. rewrite Hgold, Hipc.
  unfold merged_rows in H. unfold load, load_csv, to_datetime.
  rewrite bind_ret, bind_emit, bind_ret.
  destruct (parse_all (map Periodo (monthly_rows ipc))); [discriminate|].
  reflexivity.
Qed.

Lemma run_upto_join rows :
  merged_rows gold ipc = Some rows ->
  run w = bind (emit (nominal_chart gold))
            (fun _ => bind (derived_columns (frame_of rows)) (fun df =>
               bind (emit (ToCsv "precio_oro_eur.csv" df)) (fun _ =>
               bind (per_year df) (fun yd =>
               let (df, d) := yd in
               bind (whole_period_cagr df) (fun c =>
               bind (emit (Print (mul c (Fin 100)))) (fun _ =>
               ret (mkResult df d c))))))).
Proof.
  intros H. unfold run, script. rewrite Hgold, Hipc.
  unfold merged_rows in H. unfold load, load_csv, to_datetime.
  rewrite bind_ret, !bind_emit, bind_ret.
  destruct (parse_all (map Periodo (monthly_rows ipc))); [|discriminate].
  injection H as <-. rewrite !bind_ret. reflexivity.
Qed.

Lemma run_join_empty :
  merged_rows gold ipc = Some [] -> run w = ([nominal_chart gold], inl IndexError).
Proof. intros H. rewrite (run_upto_join [] H). reflexivity. Qed.

Lemma run_joined rows :
  merged_rows gold ipc = Some rows -> rows <> [] ->
  run w =
    if (span_days rows =? 0)%Z
    then (outputs_before_cagr gold rows, inl ZeroDivisionError)
    else ((outputs_before_cagr gold rows ++ [Print (mul (growth rows) (Fin 100))])%list,
          inr (mkResult (table_with_year rows) (growth_by_year rows) (growth rows))).
Proof.
  intros H Hne. rewrite (run_upto_join rows H).
  rewrite (derived_columns_frame rows Hne).
  cbv beta iota zeta delta [bind emit fst snd].
  rewrite per_year_table.
  cbv beta iota zeta.
  rewrite (whole_period_cagr_table rows Hne).
  destruct (span_days rows =? 0)%Z; reflexivity.
Qed.

End RunCases.

(** ** The index as a sequence of reals *)

Section Index.

Lemma rates_fin rows : rates rows = map Fin (map snd rows).
Proof. unfold rates. now rewrite map_map. Qed.

Lemma indice_fin rows : indice rows = map Fin (real_index (map snd rows)).
Proof. unfold indice. now rewrite rates_fin, IPC_indice_fin. Qed.

Lemma index_at_fin rows i :
  (i < length rows)%nat -> index_at rows i = Fin (nth i (real_index (map snd rows)) 0).
Proof.
  intros Hi. unfold index_at. rewrite indice_fin.
  rewrite (nth_indep _ NaN (Fin 0)) by now rewrite length_map, length_real_index, length_map.
  apply map_nth.
Qed.

Lemma real_index_0 r rs : nth 0 (real_index (r :: rs)) 0 = 100 * (1 + r / 100).
Proof. unfold real_index. simpl. ring. Qed.

Lemma real_index_step rs i :
  (S i < length rs)%nat ->
  nth (S i) (real_index rs) 0 = nth i (real_index rs) 0 * (1 + nth (S i) rs 0 / 100).
Proof.
  intros Hi. unfold real_index.
  assert (Hl : length (map (fun r => 1 + r / 100) rs) = length rs) by apply length_map.
  rewrite !(nth_indep _ 0 (100 * 0))
    by (rewrite length_map, length_running_product, Hl; lia).
  rewrite !map_nth.
  rewrite running_product_step by (rewrite Hl; lia).
  rewrite (nth_indep (map _ rs) 0 (1 + 0 / 100)) by (rewrite Hl; lia).
  rewrite (map_nth (fun r => 1 + r / 100)). ring.
Qed.

Lemma real_index_nonzero rs i :
  (i < length rs)%nat -> (forall j, (j <= i)%nat -> nth j rs 0 <> -100) ->
  nth i (real_index rs) 0 <> 0.
Proof.
  intros Hi H. unfold real_index.
  assert (Hl : length (map (fun r => 1 + r / 100) rs) = length rs) by apply length_map.
  rewrite (nth_indep _ 0 (100 * 0)) by (rewrite length_map, length_running_product, Hl; lia).
  rewrite map_nth.
  assert (nth i (running_product 1 (map (fun r => 1 + r / 100) rs)) 0 <> 0).
  { apply running_product_nonzero; [lra | now rewrite Hl |].
    intros j Hj. rewrite (nth_indep _ 0 (1 + 0 / 100)) by (rewrite Hl; lia).
    rewrite (map_nth (fun r => 1 + r / 100)). specialize (H j Hj). lra. }
  lra.
Qed.

Lemma real_at_eq rows i :
  (i < length rows)%nat ->
  real_at rows i = mul (Fin (value_at rows i)) (div (index_at rows 0) (index_at rows i)).
Proof.
  intros Hi. unfold real_at, reals, value_real.
  rewrite (nth_map2 _ _ _ _ (Fin 0) NaN)
    by (now rewrite ?length_map, ?length_values, ?length_indice).
  f_equal.
  - unfold values, value_at. rewrite <- (map_map (fun r => value (fst r)) Fin). apply map_nth.
  - unfold index_at.
    replace (nth 0 (indice rows) NaN) with (hd NaN (indice rows))
      by (destruct (indice rows); reflexivity).
    rewrite <- (map_nth (div (hd NaN (indice rows)))).
    apply nth_indep. now rewrite length_map, length_indice.
Qed.

Lemma mul_div_fin v a b :
  mul (Fin v) (div (Fin a) (Fin b)) = div (mul (Fin v) (Fin a)) (Fin b).
Proof.
  simpl. destruct (Req_dec_T b 0) as [->|Hb].
  - destruct (Rsign a) eqn:Ea; simpl.
    + apply Rsign_Eq in Ea. subst. now rewrite Rmult_0_r, Rsign_zero.
    + apply Rsign_Lt in Ea. destruct (Rsign v) eqn:Ev; simpl.
      * apply Rsign_Eq in Ev. subst. now rewrite Rmult_0_l, Rsign_zero.
      * apply Rsign_Lt in Ev. rewrite Rsign_pos by nra. reflexivity.
      * apply Rsign_Gt in Ev. rewrite Rsign_neg by nra. reflexivity.
    + apply Rsign_Gt in Ea. destruct (Rsign v) eqn:Ev; simpl.
      * apply Rsign_Eq in Ev. subst. now rewrite Rmult_0_l, Rsign_zero.
      * apply Rsign_Lt in Ev. rewrite Rsign_neg by nra. reflexivity.
      * apply Rsign_Gt in Ev. rewrite Rsign_pos by nra. reflexivity.
  - f_equal. field. exact Hb.
Qed.

End Index.

(** ** The scenario of the specification, run through the definitions *)
Section Scenario.

Example epoch_2000 : days_from_civil jan = 10957%Z.
Proof. reflexivity. Qed.

Example january_has_31_days : days_between feb jan = 31%Z.
Proof. reflexivity. Qed.

Example scenario_span : span_days rows_q1 = 60%Z.
Proof. reflexivity. Qed.

Example scenario_join : merged_rows gold_q1 ipc_q1 = Some rows_q1.
Proof. reflexivity. Qed.

(** Rows before 2000, rows of another data type and months without a
    partner are dropped. *)
Example scenario_join_filters :
  merged_rows
    (mkGold (mkTimestamp 1999 12 1) 90 :: gold_q1 ++ [mkGold (mkTimestamp 2000 4 1) 99])
    (mkIpc "Variación anual" (Some jan) 2.9
       :: monthly (mkTimestamp 1999 12 1) 0.4 :: ipc_q1)
  = Some rows_q1.
Proof. reflexivity. Qed.

Example scenario_index :
  indice rows_q1 = [Fin 100.5; Fin 100.8015; Fin 100.7006985].
Proof.
  rewrite indice_fin. unfold real_index. simpl.
  repeat f_equal; lra.
Qed.

Example scenario_real_february :
  exists x, real_at rows_q1 1 = Fin x /\ 101.69 < x < 101.70.
Proof.
  exists (102 * (100.5 / 100.8015)). split.
  - rewrite real_at_eq by (simpl; lia). unfold index_at.
    rewrite scenario_index. simpl nth. rewrite div_fin by lra. reflexivity.
  - lra.
Qed.

Example scenario_years : sorted_keys (years rows_q1) = [2000%Z].
Proof. reflexivity. Qed.

Example scenario_completes : exists r, outcome world_q1 = inr r.
Proof.
  unfold outcome.
  rewrite (run_joined world_q1 gold_q1 eq_refl ipc_q1 eq_refl rows_q1 eq_refl)
    by discriminate.
  eexists. reflexivity.
Qed.

End Scenario.

(** ** The index and the deflated price *)

(** C1 (amended).  Over exact arithmetic (finite prices and rates as exact
    reals: no rounding, overflow or underflow), for every non-empty merged
    sequence the run computes the columns IPC_indice and value_real with:
    index[0] = 100*(1+rate[0]/100); index[i] = index[i-1]*(1+rate[i]/100) for
    i > 0; and value_real[i] = value[i]*index[0]/index[i].  When rate[0] is
    not -100, value_real[0] = value[0].  In binary64 the recurrence holds up
    to rounding only: see [index_recurrence_rounds]. *)
Theorem anchoring_invariant (rows : list (GoldRow * R)) :
  rows <> [] ->
  exists outs df,
    derived_columns (frame_of rows) = (outs, inr df)
    /\ lookup df "IPC_indice" = Some (ColFloat (indice rows))
    /\ lookup df "value_real" = Some (ColFloat (reals rows))
    /\ index_at rows 0 = Fin (100 * (1 + rate_at rows 0 / 100))
    /\ (forall i, (0 < i < length rows)%nat ->
          index_at rows i
          = mul (index_at rows (i - 1)) (Fin (1 + rate_at rows i / 100)))
    /\ (forall i, (i < length rows)%nat ->
          real_at rows i
          = div (mul (Fin (value_at rows i)) (index_at rows 0)) (index_at rows i))
    /\ (rate_at rows 0 <> -100 -> real_at rows 0 = Fin (value_at rows 0)).
Proof.
  intros Hne. exists (charts rows), (table rows).
  assert (Hlen : (0 < length rows)%nat) by now apply nonempty_length.
  assert (H0 : index_at rows 0 = Fin (100 * (1 + rate_at rows 0 / 100))).
  { rewrite index_at_fin by assumption. f_equal.
    unfold rate_at. destruct rows as [|[g r] rows]; [contradiction|].
    apply real_index_0. }
  repeat split; trivial.
  - now apply derived_columns_frame.
  - intros i [Hi1 Hi2]. destruct i as [|i]; [lia|].
    replace (S i - 1)%nat with i by lia.
    rewrite !index_at_fin by lia. simpl. f_equal.
    rewrite real_index_step by (rewrite length_map; lia). reflexivity.
  - intros i Hi. rewrite real_at_eq by assumption.
    rewrite (index_at_fin rows 0), (index_at_fin rows i) by assumption.
    apply mul_div_fin.
  - intros Hr. rewrite real_at_eq by assumption. rewrite H0.
    rewrite div_fin by lra. simpl. f_equal. field. lra.
Qed.

Lemma anchoring_invariant_witness :
  exists outs df,
    derived_columns (frame_of rows_q1) = (outs, inr df)
    /\ lookup df "IPC_indice" = Some (ColFloat (indice rows_q1))
    /\ lookup df "value_real" = Some (ColFloat (reals rows_q1))
    /\ index_at rows_q1 0 = Fin (100 * (1 + rate_at rows_q1 0 / 100))
    /\ (forall i, (0 < i < length rows_q1)%nat ->
          index_at rows_q1 i
          = mul (index_at rows_q1 (i - 1)) (Fin (1 + rate_at rows_q1 i / 100)))
    /\ (forall i, (i < length rows_q1)%nat ->
          real_at rows_q1 i
          = div (mul (Fin (value_at rows_q1 i)) (index_at rows_q1 0)) (index_at rows_q1 i))
    /\ (rate_at rows_q1 0 <> -100 -> real_at rows_q1 0 = Fin (value_at rows_q1 0)).
Proof. apply (anchoring_invariant rows_q1). discriminate. Defined.

Lemma real_index_wipeout : real_index [-100] = [0].
Proof. unfold real_index. simpl. f_equal. lra. Qed.

Lemma reals_wipeout : reals rows_wipeout = [NaN].
Proof.
  unfold reals, value_real. rewrite indice_fin.
  change (map snd rows_wipeout) with [-100]. rewrite real_index_wipeout.
  cbn [map hd map2 values rows_wipeout fst value]. now rewrite div_zero_zero.
Qed.

(** Against C1 as stated: with a first rate of -100 the index starts at 0 and
    the first deflated price is NaN, not the nominal price 100. *)
Lemma anchoring_fails_after_wipeout :
  exists outs df,
    derived_columns (frame_of rows_wipeout) = (outs, inr df)
    /\ lookup df "value" = Some (ColFloat [Fin 100])
    /\ lookup df "value_real" = Some (ColFloat [NaN])
    /\ real_at rows_wipeout 0 <> Fin (value_at rows_wipeout 0).
Proof.
  exists (charts rows_wipeout), (table rows_wipeout). repeat split.
  - apply derived_columns_frame. discriminate.
  - simpl. now rewrite reals_wipeout.
  - unfold real_at. rewrite reals_wipeout. discriminate.
Qed.

(** C2 (amended).  At every position i such that no rate up to i is -100,
    re-inflating the deflated price with the same index gives back the
    nominal price: value_real[i]*index[i]/index[0] = value[i]. *)
Theorem deflate_inflate_round_trip (rows : list (GoldRow * R)) (i : nat) :
  (i < length rows)%nat ->
  (forall j, (j <= i)%nat -> rate_at rows j <> -100) ->
  div (mul (real_at rows i) (index_at rows i)) (index_at rows 0)
  = Fin (value_at rows i).
Proof.
  intros Hi Hr.
  assert (Hi0 : nth 0 (real_index (map snd rows)) 0 <> 0).
  { apply real_index_nonzero; [rewrite length_map; lia|].
    intros j Hj. apply Hr. lia. }
  assert (Hii : nth i (real_index (map snd rows)) 0 <> 0).
  { apply real_index_nonzero; [now rewrite length_map|]. exact Hr. }
  rewrite real_at_eq by assumption.
  rewrite (index_at_fin rows 0), (index_at_fin rows i) by lia.
  rewrite div_fin by assumption. simpl mul.
  rewrite div_fin by assumption. f_equal. now field.
Qed.

Lemma deflate_inflate_round_trip_witness :
  div (mul (real_at rows_q1 2) (index_at rows_q1 2)) (index_at rows_q1 0)
  = Fin (value_at rows_q1 2).
Proof.
  apply (deflate_inflate_round_trip rows_q1 2).
  - simpl. lia.
  - intros j Hj. destruct j as [|[|[|j]]]; [| | | lia]; unfold rate_at; simpl; lra.
Defined.

Lemma real_index_wipeout_feb : real_index [0.5; -100] = [100.5; 0].
Proof. unfold real_index. simpl. repeat f_equal; lra. Qed.

(** Against C2 as stated: after a rate of -100 in the second month the index
    is 0 there, and re-inflating gives NaN, not the nominal price 102. *)
Lemma round_trip_fails_after_wipeout :
  div (mul (real_at rows_wipeout_feb 1) (index_at rows_wipeout_feb 1))
      (index_at rows_wipeout_feb 0) = NaN
  /\ div (mul (real_at rows_wipeout_feb 1) (index_at rows_wipeout_feb 1))
         (index_at rows_wipeout_feb 0) <> Fin (value_at rows_wipeout_feb 1).
Proof.
  assert (E : div (mul (real_at rows_wipeout_feb 1) (index_at rows_wipeout_feb 1))
                  (index_at rows_wipeout_feb 0) = NaN).
  { rewrite real_at_eq by (simpl; lia).
    rewrite !index_at_fin by (simpl; lia).
    simpl map. rewrite real_index_wipeout_feb. simpl nth.
    rewrite div_zero. rewrite Rsign_pos by lra. simpl scale_inf.
    unfold value_at. simpl nth. simpl mul. rewrite Rsign_pos by lra. simpl.
    rewrite Rsign_zero. reflexivity. }
  split; [exact E | rewrite E; discriminate].
Qed.

(** C8 (amended).  Over exact arithmetic (rates as exact reals: no rounding
    and no underflow), for every sequence of CPI rates that are all greater
    than -100, every value of the cumulative index is a positive number.  In
    binary64 the running product can underflow to 0: see
    [index_underflows]. *)
Theorem index_positive (rs : list R) :
  (forall r, In r rs -> -100 < r) ->
  Forall positive (IPC_indice (map Fin rs)).
Proof.
  intros H. rewrite IPC_indice_fin. unfold real_index.
  assert (Hp : Forall (fun x => 0 < x) (running_product 1 (map (fun r => 1 + r / 100) rs))).
  { apply running_product_pos; [lra|].
    apply Forall_forall. intros x Hx. apply in_map_iff in Hx.
    destruct Hx as [r [<- Hr]]. specialize (H r Hr). lra. }
  rewrite map_map. apply Forall_forall. intros x Hx.
  apply in_map_iff in Hx. destruct Hx as [p [<- Hin]].
  rewrite Forall_forall in Hp. specialize (Hp p Hin).
  exists (100 * p). split; [reflexivity | lra].
Qed.

Lemma index_positive_witness : Forall positive (IPC_indice (map Fin [0.5; 0.3; -0.1])).
Proof.
  apply (index_positive [0.5; 0.3; -0.1]).
  intros r [<-|[<-|[<-|[]]]]; lra.
Defined.

(** Against C8 as stated: the single rate -100 is >= -100 and gives the index
    value 0, which is not positive. *)
Lemma index_zero_at_minus_100 :
  (forall r, In r [-100] -> -100 <= r)
  /\ IPC_indice (map Fin [-100]) = [Fin 0]
  /\ ~ Forall positive (IPC_indice (map Fin [-100])).
Proof.
  assert (E : IPC_indice (map Fin [-100]) = [Fin 0])
    by (rewrite IPC_indice_fin, real_index_wipeout; reflexivity).
  repeat split.
  - intros r [<-|[]]. lra.
  - exact E.
  - rewrite E. intros H. inversion H as [|? ? [v [Hv Hpos]] _]; subst.
    injection Hv as <-. lra.
Qed.

(** ** Failures and outputs *)

Lemma merged_no_cpi gold : merged_rows gold [] = Some [].
Proof.
  unfold merged_rows. simpl. unfold inner_join.
  induction (df_oro_of gold) as [|g l IH]; [reflexivity|].
  simpl. injection IH as IH. now rewrite IH.
Qed.

(** C3 (amended).  When the inner join of the two series is empty, the run
    stops at the first-row lookup of line 68 with an IndexError; the one
    output is the chart of the nominal price (lines 46-53), and no CSV file is
    written. *)
Theorem empty_join_aborts (w : World) (gold : list GoldRow) (ipc : list IpcRow) :
  fetch_series w = Some gold ->
  read_csv w = Some ipc ->
  merged_rows gold ipc = Some [] ->
  outcome w = inl IndexError
  /\ outputs w = [nominal_chart gold]
  /\ written_tables (outputs w) = [].
Proof.
  intros Hg Hi Hm. unfold outcome, outputs.
  rewrite (run_join_empty w gold Hg ipc Hi Hm). repeat split.
Qed.

Lemma empty_join_aborts_witness :
  outcome world_no_cpi = inl IndexError
  /\ outputs world_no_cpi = [nominal_chart gold_jan]
  /\ written_tables (outputs world_no_cpi) = [].
Proof.
  apply (empty_join_aborts world_no_cpi gold_jan []); reflexivity.
Defined.

(** Against C3 as stated: with an empty CPI file the run ends with an
    IndexError after one chart has been shown. *)
Lemma empty_cpi_still_shows_a_chart :
  read_csv world_no_cpi = Some []
  /\ outcome world_no_cpi = inl IndexError
  /\ map kind (outputs world_no_cpi) = [Chart].
Proof. repeat split. Qed.

Lemma kinds_before_cagr gold rows :
  map kind (outputs_before_cagr gold rows) = [Chart; Chart; Chart; Chart; CsvFile; Chart].
Proof. reflexivity. Qed.

(** C4 (amended).  A run that fails keeps the outputs of the statements
    before the failing one and produces none after it: nothing when the gold
    download fails; the nominal chart alone when the CPI download, the date
    parsing or the first-row lookup on an empty join fails; four charts, the
    CSV file and the per-year chart when the whole-period growth divides by
    zero.  No other failure occurs. *)
Theorem failure_keeps_earlier_outputs (w : World) (e : Exn) :
  outcome w = inl e ->
  (e = FetchError /\ outputs w = [])
  \/ ((e = ReadCsvError \/ e = DateParseError \/ e = IndexError)
      /\ map kind (outputs w) = [Chart])
  \/ (e = ZeroDivisionError
      /\ map kind (outputs w) = [Chart; Chart; Chart; Chart; CsvFile; Chart]).
Proof.
  unfold outcome, outputs. intros H.
  destruct (fetch_series w) as [gold|] eqn:Hg.
  2:{ rewrite (run_fetch_fails w Hg) in *. left. split; [now injection H | reflexivity]. }
  destruct (read_csv w) as [ipc|] eqn:Hi.
  2:{ rewrite (run_read_fails w gold Hg Hi) in *. right; left.
      split; [left; now injection H | reflexivity]. }
  destruct (merged_rows gold ipc) as [rows|] eqn:Hm.
  2:{ rewrite (run_parse_fails w gold Hg ipc Hi Hm) in *. right; left.
      split; [right; left; now injection H | reflexivity]. }
  destruct rows as [|r rows].
  { rewrite (run_join_empty w gold Hg ipc Hi Hm) in *. right; left.
    split; [right; right; now injection H | reflexivity]. }
  rewrite (run_joined w gold Hg ipc Hi (r :: rows) Hm) in * by discriminate.
  destruct (span_days (r :: rows) =? 0)%Z; [|discriminate].
  right; right. split; [now injection H | reflexivity].
Qed.

Lemma span_single r : span_days [r] = 0%Z.
Proof. unfold span_days, days_between. simpl. lia. Qed.

Lemma run_world_jan :
  run world_jan = (outputs_before_cagr gold_jan rows_jan, inl ZeroDivisionError).
Proof.
  rewrite (run_joined world_jan gold_jan eq_refl ipc_jan eq_refl rows_jan eq_refl)
    by discriminate.
  reflexivity.
Qed.

Lemma failure_keeps_earlier_outputs_witness :
  (ZeroDivisionError = FetchError /\ outputs world_jan = [])
  \/ ((ZeroDivisionError = ReadCsvError \/ ZeroDivisionError = DateParseError
       \/ ZeroDivisionError = IndexError)
      /\ map kind (outputs world_jan) = [Chart])
  \/ (ZeroDivisionError = ZeroDivisionError
      /\ map kind (outputs world_jan) = [Chart; Chart; Chart; Chart; CsvFile; Chart]).
Proof.
  apply (failure_keeps_earlier_outputs world_jan ZeroDivisionError).
  unfold outcome. rewrite run_world_jan. reflexivity.
Defined.

(** Against C4 as stated: on a single joined month the run fails in the
    whole-period growth after the CSV file and five charts were produced. *)
Lemma csv_and_charts_before_failure :
  outcome world_jan = inl ZeroDivisionError
  /\ map kind (outputs world_jan) = [Chart; Chart; Chart; Chart; CsvFile; Chart].
Proof. unfold outcome, outputs. rewrite run_world_jan. split; reflexivity. Qed.

(** C6.  For a merged series of exactly one record the whole-period growth
    computation raises ZeroDivisionError (the span is 0 days, so 1 / n_years
    divides by zero), and this is how the run ends. *)
Theorem single_period_zero_division
    (w : World) (gold : list GoldRow) (ipc : list IpcRow) (r : GoldRow * R) :
  fetch_series w = Some gold ->
  read_csv w = Some ipc ->
  merged_rows gold ipc = Some [r] ->
  whole_period_cagr (table_with_year [r]) = raise ZeroDivisionError
  /\ outcome w = inl ZeroDivisionError.
Proof.
  intros Hg Hi Hm. split.
  - rewrite whole_period_cagr_table by discriminate. now rewrite span_single.
  - unfold outcome. rewrite (run_joined w gold Hg ipc Hi [r] Hm) by discriminate.
    now rewrite span_single.
Qed.

Lemma single_period_zero_division_witness :
  whole_period_cagr (table_with_year [(mkGold jan 100, 0.5)]) = raise ZeroDivisionError
  /\ outcome world_jan = inl ZeroDivisionError.
Proof.
  apply (single_period_zero_division world_jan gold_jan ipc_jan); reflexivity.
Defined.



(** ** Growth without a guard, and the written file *)

(** C5 (amended).  There is no guard on the sign of the deflated prices: for
    every non-empty merged table whose first and last periods are on different
    days, the run completes without any exception, whatever the signs of
    value_real, and prints the whole-period growth; when the quotient
    valor_final / valor_inicial is negative and 1 / n_years is not a whole
    number, that growth is NaN. *)
Theorem no_guard_on_negative_base
    (w : World) (gold : list GoldRow) (ipc : list IpcRow) (rows : list (GoldRow * R)) :
  fetch_series w = Some gold ->
  read_csv w = Some ipc ->
  merged_rows gold ipc = Some rows ->
  rows <> [] ->
  span_days rows <> 0%Z ->
  outcome w = inr (mkResult (table_with_year rows) (growth_by_year rows) (growth rows))
  /\ outputs w
     = (outputs_before_cagr gold rows ++ [Print (mul (growth rows) (Fin 100))])%list
  /\ (forall x, ratio rows = Fin x -> x < 0 ->
        is_integer (1 / n_years rows) = false -> growth rows = NaN).
Proof.
  intros Hg Hi Hm Hne Hspan. unfold outcome, outputs.
  rewrite (run_joined w gold Hg ipc Hi rows Hm Hne).
  destruct (Z.eqb_spec (span_days rows) 0) as [E|_]; [contradiction|].
  repeat split.
  intros x Hx Hneg Hfrac. unfold growth.
  now rewrite Hx, pow_negative_fraction.
Qed.

Lemma reals_negative : reals rows_negative = [Fin 100; Fin (-100)].
Proof.
  unfold reals, value_real. rewrite indice_fin.
  change (map snd rows_negative) with [0; 0].
  replace (real_index [0; 0]) with [100; 100]
    by (unfold real_index; simpl; repeat f_equal; lra).
  cbn [map hd map2 values rows_negative fst value].
  rewrite div_fin by lra. simpl. repeat f_equal; lra.
Qed.

Lemma ratio_negative : ratio rows_negative = Fin (-1).
Proof.
  unfold ratio. rewrite reals_negative. cbn [last hd].
  rewrite div_fin by lra. f_equal. lra.
Qed.

Lemma exponent_negative : is_integer (1 / n_years rows_negative) = false.
Proof.
  apply (between_not_integer 11).
  replace (1 / n_years rows_negative) with (365.25 / 31).
  - simpl. lra.
  - unfold n_years.
    replace (span_days rows_negative) with 31%Z by reflexivity. field. lra.
Qed.

Lemma growth_negative : growth rows_negative = NaN.
Proof.
  unfold growth. rewrite ratio_negative.
  rewrite pow_negative_fraction; [reflexivity | lra | apply exponent_negative].
Qed.

Lemma no_guard_on_negative_base_witness :
  outcome world_negative
  = inr (mkResult (table_with_year rows_negative) (growth_by_year rows_negative)
                  (growth rows_negative))
  /\ outputs world_negative
     = (outputs_before_cagr gold_negative rows_negative
        ++ [Print (mul (growth rows_negative) (Fin 100))])%list
  /\ (forall x, ratio rows_negative = Fin x -> x < 0 ->
        is_integer (1 / n_years rows_negative) = false -> growth rows_negative = NaN).
Proof.
  apply (no_guard_on_negative_base world_negative gold_negative ipc_flat rows_negative);
    try reflexivity; discriminate.
Defined.

(** Against C5 as stated: with a negative second price the deflated price is
    -100, the run completes, and it prints NaN. *)
Lemma negative_price_prints_nan :
  real_at rows_negative 1 = Fin (-100)
  /\ (exists r, outcome world_negative = inr r /\ cagr r = NaN)
  /\ last (outputs world_negative) (Print (Fin 0)) = Print NaN.
Proof.
  assert (Hrun : run world_negative
           = ((outputs_before_cagr gold_negative rows_negative
               ++ [Print (mul (growth rows_negative) (Fin 100))])%list,
              inr (mkResult (table_with_year rows_negative)
                     (growth_by_year rows_negative) (growth rows_negative)))).
  { rewrite (run_joined world_negative gold_negative eq_refl ipc_flat eq_refl
               rows_negative eq_refl) by discriminate.
    reflexivity. }
  repeat split.
  - unfold real_at. now rewrite reals_negative.
  - eexists. unfold outcome. rewrite Hrun. split; [reflexivity|].
    apply growth_negative.
  - unfold outputs. rewrite Hrun. cbn [fst]. rewrite last_last.
    now rewrite growth_negative.
Qed.

(** C9 (amended).  Whenever the join is not empty, the run writes exactly one
    file, precio_oro_eur.csv, with exactly the columns period, value, IPC,
    IPC_indice, value_real, real_monthly_change, real_cumulative_change and
    real_annualized_change.  The year column is added to the table in memory
    after the file is written: the table left by a completed run has it as
    ninth column. *)
Theorem csv_has_eight_columns
    (w : World) (gold : list GoldRow) (ipc : list IpcRow) (rows : list (GoldRow * R)) :
  fetch_series w = Some gold ->
  read_csv w = Some ipc ->
  merged_rows gold ipc = Some rows ->
  rows <> [] ->
  map (fun pt => (fst pt, columns (snd pt))) (written_tables (outputs w))
    = [("precio_oro_eur.csv", csv_columns)]
  /\ (forall r, outcome w = inr r ->
        columns (df_oro_ipc r) = (csv_columns ++ ["year"])%list).
Proof.
  intros Hg Hi Hm Hne. unfold outcome, outputs.
  rewrite (run_joined w gold Hg ipc Hi rows Hm Hne).
  destruct (span_days rows =? 0)%Z; split; try reflexivity.
  - discriminate.
  - intros r [= <-]. reflexivity.
Qed.

Lemma csv_has_eight_columns_witness :
  map (fun pt => (fst pt, columns (snd pt))) (written_tables (outputs world_q1))
    = [("precio_oro_eur.csv", csv_columns)]
  /\ (forall r, outcome world_q1 = inr r ->
        columns (df_oro_ipc r) = (csv_columns ++ ["year"])%list).
Proof.
  apply (csv_has_eight_columns world_q1 gold_q1 ipc_q1 rows_q1);
    try reflexivity; discriminate.
Defined.

(** Against C9 as stated: on the three months of the scenario the written
    file has the eight columns and no year column. *)
Lemma written_csv_lacks_year :
  map (fun pt => columns (snd pt)) (written_tables (outputs world_q1)) = [csv_columns]
  /\ ~ In "year" csv_columns.
Proof.
  split.
  - unfold outputs.
    rewrite (run_joined world_q1 gold_q1 eq_refl ipc_q1 eq_refl rows_q1 eq_refl)
      by discriminate.
    reflexivity.
  - unfold csv_columns. simpl. intros H.
    repeat (destruct H as [H|H]; [discriminate|]). exact H.
Qed.

(** ** Scaling the prices *)

Section Scaling.
Variable k : R.
Hypothesis k_pos : 0 < k.

Lemma df_oro_of_scale gold : df_oro_of (scale_gold k gold) = scale_gold k (df_oro_of gold).
Proof.
  unfold df_oro_of, scale_gold. induction gold as [|g gold IH]; [reflexivity|].
  simpl. destruct (ts_geb (period g) start_date); simpl; now rewrite IH.
Qed.

Lemma inner_join_scale gold cpi :
  inner_join (scale_gold k gold) cpi = scale_rows k (inner_join gold cpi).
Proof.
  unfold inner_join, scale_gold, scale_rows.
  induction gold as [|g gold IH]; [reflexivity|].
  simpl. rewrite IH, map_app, !map_map. reflexivity.
Qed.

Lemma merged_rows_scale gold ipc :
  merged_rows (scale_gold k gold) ipc = option_map (scale_rows k) (merged_rows gold ipc).
Proof.
  unfold merged_rows.
  destruct (parse_all (map Periodo (monthly_rows ipc))); [|reflexivity].
  simpl. now rewrite df_oro_of_scale, inner_join_scale.
Qed.

Lemma periods_scale rows : periods (scale_rows k rows) = periods rows.
Proof. unfold periods, scale_rows. now rewrite map_map. Qed.

Lemma rates_scale rows : rates (scale_rows k rows) = rates rows.
Proof. unfold rates, scale_rows. now rewrite map_map. Qed.

Lemma indice_scale rows : indice (scale_rows k rows) = indice rows.
Proof. unfold indice. now rewrite rates_scale. Qed.

Lemma reals_scale rows : reals (scale_rows k rows) = map (mul (Fin k)) (reals rows).
Proof.
  unfold reals, value_real. rewrite indice_scale.
  unfold values, scale_rows. rewrite map_map, !map2_map_l, map_map2.
  apply map2_ext. intros r q. simpl. now apply mul_scale_assoc.
Qed.

Lemma span_days_scale rows : span_days (scale_rows k rows) = span_days rows.
Proof. unfold span_days. now rewrite periods_scale. Qed.

Lemma ratio_scale rows : ratio (scale_rows k rows) = ratio rows.
Proof.
  unfold ratio. rewrite reals_scale.
  change NaN with (mul (Fin k) NaN) at 1 2.
  rewrite last_map, hd_map. now apply div_scale.
Qed.

Lemma growth_scale rows : growth (scale_rows k rows) = growth rows.
Proof. unfold growth, n_years. now rewrite ratio_scale, span_days_scale. Qed.

Lemma final_cagr_scale w : final_cagr (scale_world k w) = final_cagr w.
Proof.
  unfold final_cagr, outcome.
  destruct (fetch_series w) as [gold|] eqn:Hg.
  2:{ rewrite (run_fetch_fails w Hg), (run_fetch_fails (scale_world k w)); trivial.
      simpl. now rewrite Hg. }
  assert (Hg' : fetch_series (scale_world k w) = Some (scale_gold k gold))
    by (simpl; now rewrite Hg).
  destruct (read_csv w) as [ipc|] eqn:Hi.
  2:{ rewrite (run_read_fails w gold Hg Hi).
      now rewrite (run_read_fails (scale_world k w) (scale_gold k gold) Hg' Hi). }
  assert (Hi' : read_csv (scale_world k w) = Some ipc) by exact Hi.
  assert (Hm' := merged_rows_scale gold ipc).
  destruct (merged_rows gold ipc) as [rows|] eqn:Hm; simpl in Hm'.
  2:{ rewrite (run_parse_fails w gold Hg ipc Hi Hm).
      now rewrite (run_parse_fails (scale_world k w) _ Hg' ipc Hi' Hm'). }
  destruct rows as [|r rows].
  { rewrite (run_join_empty w gold Hg ipc Hi Hm).
    now rewrite (run_join_empty (scale_world k w) _ Hg' ipc Hi' Hm'). }
  rewrite (run_joined w gold Hg ipc Hi _ Hm) by discriminate.
  rewrite (run_joined (scale_world k w) _ Hg' ipc Hi' _ Hm') by discriminate.
  rewrite span_days_scale.
  destruct (span_days (r :: rows) =? 0)%Z; [reflexivity|].
  cbn [snd cagr]. now rewrite growth_scale.
Qed.

End Scaling.

(** C7 (amended).  Over exact arithmetic (finite prices and rates as exact
    reals: no rounding, overflow or underflow), for every merged series with
    at least two records and every k > 0, multiplying every nominal price by k
    multiplies the merged prices by k and leaves the whole-period growth
    unchanged, as a value and as the result of the run. *)
Theorem cagr_scale_invariant
    (w : World) (gold : list GoldRow) (ipc : list IpcRow) (rows : list (GoldRow * R))
    (k : R) :
  fetch_series w = Some gold ->
  read_csv w = Some ipc ->
  merged_rows gold ipc = Some rows ->
  (2 <= length rows)%nat ->
  0 < k ->
  merged_rows (scale_gold k gold) ipc = Some (scale_rows k rows)
  /\ growth (scale_rows k rows) = growth rows
  /\ final_cagr (scale_world k w) = final_cagr w.
Proof.
  intros Hg Hi Hm Hlen Hk. repeat split.
  - now rewrite (merged_rows_scale k), Hm.
  - now apply growth_scale.
  - now apply final_cagr_scale.
Qed.

Lemma cagr_scale_invariant_witness :
  merged_rows (scale_gold 3 gold_q1) ipc_q1 = Some (scale_rows 3 rows_q1)
  /\ growth (scale_rows 3 rows_q1) = growth rows_q1
  /\ final_cagr (scale_world 3 world_q1) = final_cagr world_q1.
Proof.
  apply (cagr_scale_invariant world_q1 gold_q1 ipc_q1 rows_q1 3);
    try reflexivity; [simpl; lia | lra].
Defined.

(* ===================================================================== *)
(** * Further properties of the script *)

(** ** The join *)
Section Join.

Lemma inner_join_In df_oro df_ipc g r :
  In (g, r) (inner_join df_oro df_ipc)
  <-> In g df_oro /\ exists p, In (p, r) df_ipc /\ ts_eqb p (period g) = true.
Proof.
  unfold inner_join. rewrite in_flat_map. split.
  - intros [g' [Hg' Hin]]. apply in_map_iff in Hin.
    destruct Hin as [[p r'] [Heq Hf]]. injection Heq as -> ->.
    apply filter_In in Hf. destruct Hf as [Hc Hp]. split; [assumption|].
    exists p. split; assumption.
  - intros [Hg [p [Hc Hp]]]. exists g. split; [assumption|].
    apply in_map_iff. exists (p, r). split; [reflexivity|].
    apply filter_In. split; assumption.
Qed.

Lemma parsed_frame_In l ps p t :
  parse_all (map Periodo l) = Some ps ->
  In (p, t) (combine ps (map Total l))
  <-> exists c, In c l /\ Periodo c = Some p /\ Total c = t.
Proof.
  revert ps. induction l as [|c l IH]; intros ps H; simpl in H.
  - injection H as <-. simpl. split; [tauto | intros [c [[] _]]].
  - destruct (Periodo c) as [pc|] eqn:Hc; [|discriminate].
    destruct (parse_all (map Periodo l)) as [ps'|] eqn:Hp; [|discriminate].
    injection H as <-. simpl. rewrite (IH ps' eq_refl). split.
    + intros [Heq | [c' [Hin H']]].
      * injection Heq as <- <-. exists c. repeat split; auto.
      * exists c'. split; [now right | assumption].
    + intros [c' [[<- | Hin] [Hp' Ht]]].
      * left. rewrite Hc in Hp'. injection Hp' as ->. now rewrite Ht.
      * right. exists c'. repeat split; assumption.
Qed.

(** X1.  A pair (gold row, rate) is in the joined table exactly when the gold
    row was fetched with a period on or after 2000-01-01 and the CPI file has
    a 'Variación mensual' row of the same period with that rate (lines 44,
    60-65). *)
Theorem join_characterised
    (gold : list GoldRow) (ipc : list IpcRow) (rows : list (GoldRow * R)) :
  merged_rows gold ipc = Some rows ->
  forall g r,
    In (g, r) rows
    <-> In g gold
        /\ ts_geb (period g) start_date = true
        /\ exists c p, In c ipc
             /\ Tipo_de_dato c = "Variación mensual"
             /\ Periodo c = Some p
             /\ ts_eqb p (period g) = true
             /\ Total c = r.
Proof.
  unfold merged_rows. intros H g r.
  destruct (parse_all (map Periodo (monthly_rows ipc))) as [ps|] eqn:Hp; [|discriminate].
  injection H as <-. rewrite inner_join_In. unfold df_oro_of. rewrite filter_In.
  split.
  - intros [[Hg Hd] [p [Hc Hm]]].
    apply (parsed_frame_In _ _ _ _ Hp) in Hc. destruct Hc as [c [Hin [Hper Htot]]].
    unfold monthly_rows in Hin. apply filter_In in Hin. destruct Hin as [Hin Ht].
    apply String.eqb_eq in Ht.
    repeat split; trivial. exists c, p. repeat split; assumption.
  - intros [Hg [Hd [c [p [Hin [Ht [Hper [Hm Htot]]]]]]]].
    split; [split; assumption|]. exists p. split; [|assumption].
    apply (parsed_frame_In _ _ _ _ Hp). exists c. repeat split; trivial.
    unfold monthly_rows. apply filter_In. split; [assumption|].
    now apply String.eqb_eq.
Qed.

Lemma join_characterised_witness :
  In (mkGold feb 102, 0.3) rows_q1
  <-> In (mkGold feb 102) gold_q1
      /\ ts_geb (period (mkGold feb 102)) start_date = true
      /\ exists c p, In c ipc_q1
           /\ Tipo_de_dato c = "Variación mensual"
           /\ Periodo c = Some p
           /\ ts_eqb p (period (mkGold feb 102)) = true
           /\ Total c = 0.3.
Proof.
  apply (join_characterised gold_q1 ipc_q1 rows_q1 eq_refl (mkGold feb 102) 0.3).
Defined.

Lemma ts_eqb_eq a b : ts_eqb a b = true <-> a = b.
Proof.
  destruct a as [y m d], b as [y' m' d']. unfold ts_eqb. simpl.
  rewrite !andb_true_iff, !Z.eqb_eq. split.
  - intros [[-> ->] ->]. reflexivity.
  - intros [= -> -> ->]. auto.
Qed.

Lemma filter_partner_unique df_ipc (g : GoldRow) :
  unique_periods df_ipc ->
  List.length (filter (fun c => ts_eqb (fst c) (period g)) df_ipc)
  = if has_partner df_ipc g then 1%nat else 0%nat.
Proof.
  unfold has_partner. induction df_ipc as [|c rest IH]; intros Hu; [reflexivity|].
  destruct Hu as [Hc Hu]. simpl.
  destruct (ts_eqb (fst c) (period g)) eqn:E; simpl.
  - rewrite (IH Hu). 
    destruct (existsb (fun c0 => ts_eqb (fst c0) (period g)) rest) eqn:Ex; [|reflexivity].
    exfalso. apply existsb_exists in Ex. destruct Ex as [c' [Hin Hc']].
    specialize (Hc c' Hin).
    apply ts_eqb_eq in E, Hc'. rewrite E, <- Hc' in Hc.
    assert (ts_eqb (fst c') (fst c') = true) by now apply ts_eqb_eq.
    congruence.
  - apply (IH Hu).
Qed.

(** X2.  When no two CPI rows are of the same period, the join keeps each gold
    row at most once and in the order of the gold frame: its gold side is the
    gold frame filtered by "has a CPI row of this period" (line 65). *)
Theorem join_keeps_gold_order (df_oro : list GoldRow) (df_ipc : list (Timestamp * R)) :
  unique_periods df_ipc ->
  map fst (inner_join df_oro df_ipc) = filter (has_partner df_ipc) df_oro.
Proof.
  intros Hu. unfold inner_join.
  induction df_oro as [|g rest IH]; [reflexivity|].
  simpl. rewrite map_app, IH, map_map. simpl.
  assert (Hlen := filter_partner_unique df_ipc g Hu).
  destruct (has_partner df_ipc g).
  - destruct (filter _ df_ipc) as [|c [|c' l]]; try discriminate. reflexivity.
  - destruct (filter _ df_ipc); [reflexivity | discriminate].
Qed.

Lemma join_keeps_gold_order_witness :
  map fst (inner_join gold_q1 [(jan, 0.5); (mar, -0.1)])
  = filter (has_partner [(jan, 0.5); (mar, -0.1)]) gold_q1.
Proof.
  apply (join_keeps_gold_order gold_q1 [(jan, 0.5); (mar, -0.1)]).
  simpl. repeat split; intros c' H;
    repeat (destruct H as [<-|H]; [reflexivity|]); destruct H.
Defined.

(** X3.  Gold rows before 2000 and CPI rows of another data type have no
    effect: two runs whose downloads agree after the filters of lines 44 and
    60 are the same run, even when a dropped CPI row has a period text that
    does not parse. *)
Theorem run_ignores_dropped_rows (w1 w2 : World)
    (gold1 gold2 : list GoldRow) (ipc1 ipc2 : list IpcRow) :
  fetch_series w1 = Some gold1 -> fetch_series w2 = Some gold2 ->
  read_csv w1 = Some ipc1 -> read_csv w2 = Some ipc2 ->
  df_oro_of gold1 = df_oro_of gold2 ->
  monthly_rows ipc1 = monthly_rows ipc2 ->
  run w1 = run w2.
Proof.
  intros Hg1 Hg2 Hi1 Hi2 Hg Hi. unfold run, script.
  rewrite Hg1, Hg2, Hi1, Hi2. unfold load, load_csv. cbv iota.
  rewrite !bind_ret, Hg. rewrite !(bind_emit (A:=Result)). cbv beta.
  rewrite ?bind_ret, Hi. reflexivity.
Qed.


Lemma run_ignores_dropped_rows_witness :
  run (world_of (mkGold (mkTimestamp 1999 12 1) 90 :: gold_q1)
                (mkIpc "Variación anual" None 2.9 :: ipc_q1))
  = run world_q1.
Proof.
  apply (run_ignores_dropped_rows _ _
           (mkGold (mkTimestamp 1999 12 1) 90 :: gold_q1) gold_q1
           (mkIpc "Variación anual" None 2.9 :: ipc_q1) ipc_q1); reflexivity.
Defined.

End Join.

(** ** The change columns *)
Section Changes.

Lemma length_ffill_from d s : length (ffill_from d s) = length s.
Proof.
  revert d; induction s as [|x s IH]; intros d; [reflexivity|].
  destruct x; simpl; now rewrite IH.
Qed.

Lemma length_shift1 s : length (shift1 s) = length s.
Proof.
  destruct s as [|x s]; [reflexivity|].
  unfold shift1. cbn [length].
  assert (H : length (removelast (x :: s)) = length s).
  { revert x; induction s as [|y s IH]; intros x; [reflexivity|].
    change (removelast (x :: y :: s)) with (x :: removelast (y :: s)).
    cbn [length]. now rewrite IH. }
  now rewrite H.
Qed.

Lemma length_pct_change s : length (pct_change s) = length s.
Proof.
  unfold pct_change, ffill.
  rewrite length_map2; [apply length_ffill_from|].
  now rewrite length_shift1.
Qed.

Lemma ffill_from_no_nan d s : Forall (fun x => x <> NaN) s -> ffill_from d s = s.
Proof.
  revert d; induction s as [|x s IH]; intros d H; [reflexivity|].
  inversion H as [|? ? Hx Hs]; subst.
  destruct x; simpl; try congruence; now rewrite IH.
Qed.

Lemma nth_removelast {A} (s : list A) i d :
  (S i < length s)%nat -> nth i (removelast s) d = nth i s d.
Proof.
  revert i; induction s as [|x s IH]; intros i H; [cbn [length] in H; lia|].
  destruct s as [|y s]; [cbn [length] in H; lia|].
  change (removelast (x :: y :: s)) with (x :: removelast (y :: s)).
  destruct i; [reflexivity|]. cbn [nth]. apply IH.
  cbn [length] in *. lia.
Qed.

Lemma nth_shift1 s i :
  (S i < length s)%nat -> nth (S i) (shift1 s) NaN = nth i s NaN.
Proof.
  intros H. destruct s as [|x s]; [simpl in H; lia|].
  unfold shift1. change (nth (S i) (NaN :: removelast (x :: s)) NaN)
    with (nth i (removelast (x :: s)) NaN). now apply nth_removelast.
Qed.

Lemma monthly_change_values_aux (s : list float64) :
  Forall (fun x => x <> NaN) s ->
  (s <> [] -> nth 0 (real_monthly_change s) (Fin 0) = NaN)
  /\ (forall i, (S i < List.length s)%nat ->
        nth (S i) (real_monthly_change s) NaN
        = mul (sub (div (nth (S i) s NaN) (nth i s NaN)) (Fin 1)) (Fin 100)).
Proof.
  intros Hs. unfold real_monthly_change. split.
  - intros Hne. destruct s as [|x s]; [contradiction|].
    unfold pct_change, ffill. rewrite (ffill_from_no_nan _ _ Hs).
    unfold shift1. cbn [map2 map nth].
    destruct x; reflexivity.
  - intros i Hi.
    rewrite (nth_indep _ NaN (mul NaN (Fin 100)))
      by (rewrite length_map, length_pct_change; lia).
    rewrite (map_nth (fun x => mul x (Fin 100))). f_equal.
    unfold pct_change, ffill. rewrite (ffill_from_no_nan _ _ Hs).
    rewrite (nth_map2 _ _ _ _ NaN NaN) by (rewrite ?length_shift1; lia).
    now rewrite nth_shift1.
Qed.

Lemma length_real_monthly_change s :
  List.length (real_monthly_change s) = List.length s.
Proof. unfold real_monthly_change. now rewrite length_map, length_pct_change. Qed.

(** X4.  On a column without missing values, real_monthly_change has the
    length of the column, NaN in its first row, and in every later row
    (s[i] / s[i-1] - 1) * 100 (line 84). *)
Theorem monthly_change_values (s : list float64) :
  Forall (fun x => x <> NaN) s ->
  List.length (real_monthly_change s) = List.length s
  /\ (s <> [] -> nth 0 (real_monthly_change s) (Fin 0) = NaN)
  /\ (forall i, (S i < List.length s)%nat ->
        nth (S i) (real_monthly_change s) NaN
        = mul (sub (div (nth (S i) s NaN) (nth i s NaN)) (Fin 1)) (Fin 100)).
Proof.
  intros Hs. split; [apply length_real_monthly_change|].
  now apply monthly_change_values_aux.
Qed.

Lemma monthly_change_values_witness :
  List.length (real_monthly_change [Fin 100; Fin 102]) = 2%nat
  /\ ([Fin 100; Fin 102] <> [] ->
      nth 0 (real_monthly_change [Fin 100; Fin 102]) (Fin 0) = NaN)
  /\ (forall i, (S i < 2)%nat ->
        nth (S i) (real_monthly_change [Fin 100; Fin 102]) NaN
        = mul (sub (div (nth (S i) [Fin 100; Fin 102] NaN)
                        (nth i [Fin 100; Fin 102] NaN)) (Fin 1)) (Fin 100)).
Proof.
  apply (monthly_change_values [Fin 100; Fin 102]).
  repeat constructor; discriminate.
Defined.

(** The power 12 of the script, on every finite base. *)
Lemma Rsign_12 : Rsign 12 = Gt.
Proof. apply Rsign_pos. lra. Qed.

Lemma Int_part_IZR z : Int_part (IZR z) = z.
Proof. symmetry. apply Int_part_spec. lra. Qed.

Lemma is_integer_IZR z : is_integer (IZR z) = true.
Proof.
  unfold is_integer. rewrite Int_part_IZR.
  destruct (Req_dec_T (IZR z) (IZR z)); [reflexivity | contradiction].
Qed.

Lemma pow_12 x : pow (Fin x) 12 = Fin (x ^ 12).
Proof.
  unfold pow. rewrite Rsign_12.
  destruct (Rsign x) eqn:E.
  - apply Rsign_Eq in E. subst. f_equal. simpl. ring.
  - rewrite (is_integer_IZR 12), (Int_part_IZR 12). reflexivity.
  - apply Rsign_Gt in E. f_equal.
    replace 12 with (INR 12) by (simpl; lra).
    now apply Rpower_pow.
Qed.


End Changes.

Section Cumulative.


Lemma hd_reals rows :
  rows <> [] -> hd NaN (reals rows) = real_at rows 0.
Proof. intros _. unfold real_at. destruct (reals rows); reflexivity. Qed.

Lemma real_at_first rows :
  rows <> [] -> rate_at rows 0 <> -100 -> real_at rows 0 = Fin (value_at rows 0).
Proof.
  intros Hne Hr. assert (Hlen : (0 < length rows)%nat) by now apply nonempty_length.
  rewrite real_at_eq by assumption. rewrite index_at_fin by assumption.
  assert (nth 0 (real_index (map snd rows)) 0 <> 0).
  { destruct rows as [|[g r] rows]; [contradiction|].
    cbn [map snd]. rewrite real_index_0. unfold rate_at in Hr. simpl in Hr. lra. }
  rewrite div_fin by assumption. cbn [mul]. f_equal. now field.
Qed.

(** X6.  When the first rate is not -100, the cumulative real change of the
    first row is 0 if the first price is not 0, and NaN (0/0, no exception)
    if it is 0 (line 87). *)
Theorem cumulative_change_starts_at_zero (rows : list (GoldRow * R)) :
  rows <> [] ->
  rate_at rows 0 <> -100 ->
  (value_at rows 0 <> 0 ->
     nth 0 (real_cumulative_change (reals rows) (hd NaN (reals rows))) NaN = Fin 0)
  /\ (value_at rows 0 = 0 ->
     nth 0 (real_cumulative_change (reals rows) (hd NaN (reals rows))) NaN = NaN).
Proof.
  intros Hne Hr. set (first := hd NaN (reals rows)).
  assert (Hf : first = Fin (value_at rows 0)).
  { unfold first. rewrite hd_reals by assumption. now apply real_at_first. }
  assert (Hlen : (0 < length (reals rows))%nat)
    by (rewrite length_reals; now apply nonempty_length).
  assert (H0 : nth 0 (real_cumulative_change (reals rows) first) NaN
               = mul (sub (div first first) (Fin 1)) (Fin 100)).
  { unfold real_cumulative_change, first.
    destruct (reals rows) as [|x l]; [simpl in Hlen; lia | reflexivity]. }
  rewrite H0, Hf. split; intros Hv.
  - rewrite div_fin by assumption. cbn [sub neg add mul]. f_equal. now field.
  - rewrite Hv, div_zero_zero. reflexivity.
Qed.

Lemma cumulative_change_starts_at_zero_witness :
  (value_at rows_q1 0 <> 0 ->
     nth 0 (real_cumulative_change (reals rows_q1) (hd NaN (reals rows_q1))) NaN = Fin 0)
  /\ (value_at rows_q1 0 = 0 ->
     nth 0 (real_cumulative_change (reals rows_q1) (hd NaN (reals rows_q1))) NaN = NaN).
Proof.
  apply (cumulative_change_starts_at_zero rows_q1).
  - discriminate.
  - unfold rate_at. simpl. lra.
Defined.



End Cumulative.

(** ** The shape of the table and of the outputs *)
Section Shape.

Lemma table_with_year_rectangular rows :
  Forall (fun nc => col_length (snd nc) = List.length rows) (table_with_year rows).
Proof.
  unfold table_with_year, table.
  repeat constructor; cbn [snd col_length];
    unfold real_cumulative_change, real_annualized_change;
    rewrite ?length_map, ?length_real_monthly_change, ?length_reals, ?length_indice,
      ?length_rates, ?length_values, ?length_periods, ?length_years; reflexivity.
Qed.

Lemma table_rectangular rows :
  Forall (fun nc => col_length (snd nc) = List.length rows) (table rows).
Proof.
  assert (H := table_with_year_rectangular rows). unfold table_with_year in H.
  apply Forall_app in H. tauto.
Qed.

(** X8.  Every column of the table written to the CSV file, and of the table
    a completed run leaves, has exactly one entry per joined row (lines
    65-117). *)
Theorem tables_are_rectangular
    (w : World) (gold : list GoldRow) (ipc : list IpcRow) (rows : list (GoldRow * R)) :
  fetch_series w = Some gold ->
  read_csv w = Some ipc ->
  merged_rows gold ipc = Some rows ->
  (forall path df, In (path, df) (written_tables (outputs w)) ->
     Forall (fun nc => col_length (snd nc) = List.length rows) df)
  /\ (forall r, outcome w = inr r ->
     Forall (fun nc => col_length (snd nc) = List.length rows) (df_oro_ipc r)).
Proof.
  intros Hg Hi Hm. unfold outputs, outcome.
  destruct rows as [|r0 rows].
  { rewrite (run_join_empty w gold Hg ipc Hi Hm). split.
    - intros path df [].
    - discriminate. }
  rewrite (run_joined w gold Hg ipc Hi (r0 :: rows) Hm) by discriminate.
  destruct (span_days (r0 :: rows) =? 0)%Z; cbn [fst snd]; split.
  - intros path df [[= <- <-]|[]]. apply table_rectangular.
  - discriminate.
  - intros path df [[= <- <-]|[]]. apply table_rectangular.
  - intros r [= <-]. apply table_with_year_rectangular.
Qed.

Lemma tables_are_rectangular_witness :
  (forall path df, In (path, df) (written_tables (outputs world_q1)) ->
     Forall (fun nc => col_length (snd nc) = List.length rows_q1) df)
  /\ (forall r, outcome world_q1 = inr r ->
     Forall (fun nc => col_length (snd nc) = List.length rows_q1) (df_oro_ipc r)).
Proof.
  apply (tables_are_rectangular world_q1 gold_q1 ipc_q1 rows_q1); reflexivity.
Defined.

(** X9.  A run completes exactly when its outputs are, in this order, four
    charts, the CSV file, the per-year chart and the printed growth. *)
Theorem completed_run_outputs (w : World) :
  (exists r, outcome w = inr r) <-> map kind (outputs w) = full_run_kinds.
Proof.
  unfold outcome, outputs.
  destruct (fetch_series w) as [gold|] eqn:Hg.
  2:{ rewrite (run_fetch_fails w Hg). split; [intros [r H] | intros H]; discriminate. }
  destruct (read_csv w) as [ipc|] eqn:Hi.
  2:{ rewrite (run_read_fails w gold Hg Hi). split; [intros [r H] | intros H]; discriminate. }
  destruct (merged_rows gold ipc) as [rows|] eqn:Hm.
  2:{ rewrite (run_parse_fails w gold Hg ipc Hi Hm).
      split; [intros [r H] | intros H]; discriminate. }
  destruct rows as [|r0 rows].
  { rewrite (run_join_empty w gold Hg ipc Hi Hm).
    split; [intros [r H] | intros H]; discriminate. }
  rewrite (run_joined w gold Hg ipc Hi (r0 :: rows) Hm) by discriminate.
  destruct (span_days (r0 :: rows) =? 0)%Z.
  - split; [intros [r H] | intros H]; discriminate.
  - split; [reflexivity | eexists; reflexivity].
Qed.

End Shape.

(** ** The years *)
Section Years.

Lemma In_insert_key k x l : In k (insert_key x l) <-> k = x \/ In k l.
Proof.
  split; [apply insert_key_In|].
  induction l as [|y l IH]; simpl.
  - intros [->|[]]. now left.
  - destruct (Z.ltb_spec x y).
    + intros [->|H']; [now left | now right].
    + destruct (Z.eqb_spec x y) as [->|Hne].
      * intros [->|H']; [now left | assumption].
      * intros [->|[->|H']]; [right; apply IH; now left | now left | right; apply IH; now right].
Qed.

Lemma In_sorted_keys k l : In k (sorted_keys l) <-> In k l.
Proof.
  unfold sorted_keys. induction l as [|x l IH]; simpl; [tauto|].
  rewrite In_insert_key, IH. intuition congruence.
Qed.

Lemma insert_key_sorted x l :
  StronglySorted Z.lt l -> StronglySorted Z.lt (insert_key x l).
Proof.
  induction l as [|y l IH]; intros H; simpl.
  - repeat constructor.
  - inversion H as [|? ? Hs Hall]; subst.
    destruct (Z.ltb_spec x y).
    + constructor; [assumption|]. constructor; [assumption|].
      rewrite Forall_forall in *. intros z Hz. specialize (Hall z Hz). lia.
    + destruct (Z.eqb_spec x y); [assumption|].
      constructor; [now apply IH|].
      rewrite Forall_forall in *. intros z Hz. apply In_insert_key in Hz.
      destruct Hz as [->|Hz]; [lia | now apply Hall].
Qed.

Lemma sorted_keys_sorted l : StronglySorted Z.lt (sorted_keys l).
Proof.
  unfold sorted_keys. induction l as [|x l IH]; simpl; [constructor|].
  now apply insert_key_sorted.
Qed.

Lemma dict_set_fresh d k v :
  ~ In k (map fst d) -> dict_set d k v = (d ++ [(k, v)])%list.
Proof.
  induction d as [|[k' v'] d IH]; intros H; [reflexivity|].
  simpl in *. destruct (Z.eqb_spec k' k) as [->|Hne]; [tauto|].
  rewrite IH by tauto. reflexivity.
Qed.

Lemma fold_dict_set (f : Z -> float64) ks acc :
  StronglySorted Z.lt ks ->
  (forall k, In k ks -> ~ In k (map fst acc)) ->
  fold_left (fun d k => dict_set d k (f k)) ks acc
  = (acc ++ map (fun k => (k, f k)) ks)%list.
Proof.
  revert acc; induction ks as [|k ks IH]; intros acc Hs Hd; simpl.
  - now rewrite app_nil_r.
  - inversion Hs as [|? ? Hs' Hall]; subst.
    rewrite dict_set_fresh by (apply Hd; now left).
    rewrite IH; [now rewrite <- app_assoc | assumption |].
    intros k' Hk'. rewrite map_app, in_app_iff. simpl.
    rewrite Forall_forall in Hall. specialize (Hall k' Hk').
    intros [H|[->|[]]]; [|lia]. apply (Hd k'); [now right | assumption].
Qed.

Lemma growth_by_year_map rows :
  growth_by_year rows
  = map (fun k => (k, year_growth rows k)) (sorted_keys (years rows)).
Proof.
  unfold growth_by_year.
  rewrite fold_dict_set; [reflexivity | apply sorted_keys_sorted |].
  intros k _ [].
Qed.

(** X10.  In a completed run, cagr_per_year has one entry per calendar year
    that occurs in the joined table and no other, in strictly ascending year
    order, and the entry of a year is the growth of that year's rows (lines
    117-124). *)
Theorem cagr_per_year_by_ascending_year
    (w : World) (gold : list GoldRow) (ipc : list IpcRow) (rows : list (GoldRow * R))
    (r : Result) :
  fetch_series w = Some gold ->
  read_csv w = Some ipc ->
  merged_rows gold ipc = Some rows ->
  outcome w = inr r ->
  StronglySorted Z.lt (map fst (cagr_per_year r))
  /\ (forall k, In k (map fst (cagr_per_year r))
        <-> exists row, In row rows /\ ts_year (period (fst row)) = k)
  /\ (forall k v, In (k, v) (cagr_per_year r) -> v = year_growth rows k).
Proof.
  intros Hg Hi Hm. unfold outcome.
  destruct rows as [|r0 rows].
  { rewrite (run_join_empty w gold Hg ipc Hi Hm). discriminate. }
  rewrite (run_joined w gold Hg ipc Hi (r0 :: rows) Hm) by discriminate.
  destruct (span_days (r0 :: rows) =? 0)%Z; [discriminate|].
  intros [= <-]. cbn [cagr_per_year]. rewrite growth_by_year_map.
  rewrite map_map. cbn [fst]. rewrite map_id. repeat split.
  - apply sorted_keys_sorted.
  - intros H. rewrite In_sorted_keys in H. unfold years, periods in H.
    rewrite map_map in H. apply in_map_iff in H. destruct H as [row [Hk Hin]].
    exists row. split; assumption.
  - intros [row [Hin Hk]]. apply In_sorted_keys. unfold years, periods.
    rewrite map_map. apply in_map_iff. exists row. split; assumption.
  - intros k v H. apply in_map_iff in H. destruct H as [k' [[= <- <-] _]]. reflexivity.
Qed.

Lemma span_q1 : (span_days rows_q1 =? 0)%Z = false.
Proof. reflexivity. Qed.

Lemma outcome_q1 :
  outcome world_q1
  = inr (mkResult (table_with_year rows_q1) (growth_by_year rows_q1) (growth rows_q1)).
Proof.
  unfold outcome.
  rewrite (run_joined world_q1 gold_q1 eq_refl ipc_q1 eq_refl rows_q1 eq_refl)
    by discriminate.
  now rewrite span_q1.
Qed.

Lemma cagr_per_year_by_ascending_year_witness :
  StronglySorted Z.lt (map fst (growth_by_year rows_q1))
  /\ (forall k, In k (map fst (growth_by_year rows_q1))
        <-> exists row, In row rows_q1 /\ ts_year (period (fst row)) = k)
  /\ (forall k v, In (k, v) (growth_by_year rows_q1) -> v = year_growth rows_q1 k).
Proof.
  apply (cagr_per_year_by_ascending_year world_q1 gold_q1 ipc_q1 rows_q1
           (mkResult (table_with_year rows_q1) (growth_by_year rows_q1) (growth rows_q1)));
    try reflexivity. apply outcome_q1.
Defined.

(** Every record is counted in exactly one year. *)
Lemma length_mask_list {A} mask (l : list A) :
  List.length mask = List.length l ->
  List.length (mask_list mask l) = count_occ bool_dec mask true.
Proof.
  revert l; induction mask as [|b mask IH]; intros [|x l] H; simpl in *; try lia.
  destruct b; simpl; rewrite IH by lia; reflexivity.
Qed.

Lemma months_in_count rows k :
  months_in rows k = count_occ Z.eq_dec (years rows) k.
Proof.
  unfold months_in. rewrite length_mask_list
    by now rewrite length_map, length_years, length_periods.
  induction (years rows) as [|y ys IH]; [reflexivity|].
  simpl. destruct (Z.eqb_spec k y) as [->|Hne].
  - destruct (Z.eq_dec y y); [|contradiction]. now rewrite IH.
  - destruct (Z.eq_dec y k); [congruence|]. exact IH.
Qed.

Lemma sum_counts ks ys :
  NoDup ks -> (forall y, In y ys -> In y ks) ->
  list_sum (map (count_occ Z.eq_dec ys) ks) = List.length ys.
Proof.
  intros Hnd. induction ys as [|y ys IH]; intros Hin.
  - clear Hnd Hin. induction ks as [|k ks IHk]; simpl; auto.
  - assert (Hy : In y ks) by (apply Hin; now left).
    assert (IH' := IH (fun z Hz => Hin z (or_intror Hz))).
    cbn [length]. rewrite <- IH'. clear IH IH' Hin.
    induction ks as [|k ks IHk]; [destruct Hy|].
    inversion Hnd as [|? ? Hnk Hnd']; subst.
    cbn [map list_sum].
    destruct (Z.eq_dec y k) as [->|Hne].
    + rewrite count_occ_cons_eq by reflexivity.
      assert (E : map (count_occ Z.eq_dec (k :: ys)) ks = map (count_occ Z.eq_dec ys) ks).
      { apply map_ext_in. intros z Hz. apply count_occ_cons_neq.
        intros ->. contradiction. }
      rewrite E. unfold list_sum. cbn [fold_right]. lia.
    + destruct Hy as [->|Hy]; [contradiction|].
      rewrite count_occ_cons_neq by assumption.
      change (list_sum (?a :: ?l)) with (a + list_sum l)%nat.
      rewrite (IHk Hnd' Hy). lia.
Qed.

Lemma sorted_NoDup l : StronglySorted Z.lt l -> NoDup l.
Proof.
  induction 1 as [|x l Hs IH Hall]; constructor; [|assumption].
  intros Hin. rewrite Forall_forall in Hall. specialize (Hall x Hin). lia.
Qed.


End Years.

(** ** Regular tables: every deflated price is a number other than 0 *)
Section Regular.

Lemma running_product_all_nonzero acc fs :
  acc <> 0 -> Forall (fun f => f <> 0) fs ->
  Forall (fun p => p <> 0) (running_product acc fs).
Proof.
  revert acc; induction fs as [|f fs IH]; intros acc Ha H; simpl; constructor;
    inversion H; subst.
  - nra.
  - apply IH; [nra | assumption].
Qed.

Lemma real_index_all_nonzero rs :
  Forall (fun r => r <> -100) rs -> Forall (fun x => x <> 0) (real_index rs).
Proof.
  intros H. unfold real_index.
  assert (Hp : Forall (fun p => p <> 0)
                 (running_product 1 (map (fun r => 1 + r / 100) rs))).
  { apply running_product_all_nonzero; [lra|].
    apply Forall_forall. intros f Hf. apply in_map_iff in Hf.
    destruct Hf as [r [<- Hr]]. rewrite Forall_forall in H. specialize (H r Hr). lra. }
  apply Forall_forall. intros x Hx. apply in_map_iff in Hx.
  destruct Hx as [p [<- Hp']]. rewrite Forall_forall in Hp. specialize (Hp p Hp'). lra.
Qed.

Lemma map2_fin vs qs :
  map2 mul (map Fin vs) (map Fin qs) = map Fin (map2 Rmult vs qs).
Proof.
  revert qs; induction vs as [|v vs IH]; intros [|q qs]; simpl; trivial.
  now rewrite IH.
Qed.

Lemma map2_nonzero vs qs :
  Forall (fun v => v <> 0) vs -> Forall (fun q => q <> 0) qs ->
  Forall (fun x => x <> 0) (map2 Rmult vs qs).
Proof.
  revert qs; induction vs as [|v vs IH]; intros [|q qs] Hv Hq; simpl; constructor;
    inversion Hv; inversion Hq; subst.
  - nra.
  - now apply IH.
Qed.

Lemma regular_reals rows :
  regular rows ->
  exists xs, reals rows = map Fin xs
             /\ Forall (fun x => x <> 0) xs
             /\ List.length xs = List.length rows.
Proof.
  intros Hreg. unfold regular in Hreg.
  assert (Hidx : Forall (fun x => x <> 0) (real_index (map snd rows))).
  { apply real_index_all_nonzero. apply Forall_forall. intros r Hr.
    apply in_map_iff in Hr. destruct Hr as [row [<- Hrow]].
    rewrite Forall_forall in Hreg. now apply Hreg. }
  assert (Hval : Forall (fun v => v <> 0) (map (fun r => value (fst r)) rows)).
  { apply Forall_forall. intros v Hv. apply in_map_iff in Hv.
    destruct Hv as [row [<- Hrow]]. rewrite Forall_forall in Hreg. now apply Hreg. }
  set (Is := real_index (map snd rows)) in *.
  set (i0 := hd 0 Is).
  exists (map2 Rmult (map (fun r => value (fst r)) rows) (map (fun x => i0 / x) Is)).
  assert (Hlen : length Is = length rows)
    by (unfold Is; now rewrite length_real_index, length_map).
  assert (Hi0 : Is <> [] -> i0 <> 0).
  { unfold i0. destruct Is as [|x l]; [congruence|]. intros _. now inversion Hidx. }
  repeat split.
  - unfold reals, value_real. rewrite indice_fin. fold Is.
    replace (hd NaN (map Fin Is)) with (match Is with [] => NaN | _ => Fin i0 end)
      by (unfold i0; destruct Is; reflexivity).
    unfold values. rewrite <- (map_map (fun r => value (fst r)) Fin).
    rewrite <- map2_fin. f_equal.
    rewrite !map_map. apply map_ext_in. intros x Hx.
    destruct Is as [|y l] eqn:E; [destruct Hx|].
    rewrite Forall_forall in Hidx. now rewrite div_fin by (apply Hidx; assumption).
  - apply map2_nonzero; [assumption|].
    apply Forall_forall. intros q Hq. apply in_map_iff in Hq.
    destruct Hq as [x [<- Hx]].
    assert (Is <> []) by (intros E; rewrite E in Hx; destruct Hx).
    rewrite Forall_forall in Hidx. specialize (Hidx x Hx). specialize (Hi0 H).
    unfold Rdiv. apply Rmult_integral_contrapositive_currified; [assumption|].
    now apply Rinv_neq_0_compat.
  - rewrite length_map2; now rewrite !length_map.
Qed.

Lemma mask_list_map {A B} (f : A -> B) mask l :
  mask_list mask (map f l) = map f (mask_list mask l).
Proof.
  revert l; induction mask as [|b mask IH]; intros [|x l]; simpl; trivial.
  destruct b; simpl; now rewrite IH.
Qed.

Lemma mask_list_In {A} mask (l : list A) x : In x (mask_list mask l) -> In x l.
Proof.
  revert l; induction mask as [|b mask IH]; intros [|y l]; simpl; try tauto.
  destruct b; simpl; [intros [->|H]; [now left | right; now apply IH]|].
  intros H. right. now apply IH.
Qed.

Lemma year_reals_length rows k : List.length (year_reals rows k) = months_in rows k.
Proof.
  unfold year_reals, months_in.
  rewrite !length_mask_list; trivial;
    now rewrite length_map, length_years, ?length_reals, ?length_periods.
Qed.

Lemma year_growth_eq rows k :
  year_growth rows k
  = mul (sub (pow (div (last (year_reals rows k) NaN) (hd NaN (year_reals rows k)))
                  (12 / INR (months_in rows k))) (Fin 1)) (Fin 100).
Proof. reflexivity. Qed.

Lemma regular_year_reals rows k :
  regular rows ->
  exists xs, year_reals rows k = map Fin xs /\ Forall (fun x => x <> 0) xs.
Proof.
  intros Hreg. destruct (regular_reals rows Hreg) as [xs [Hx [Hnz _]]].
  exists (mask_list (map (Z.eqb k) (years rows)) xs). split.
  - unfold year_reals. now rewrite Hx, mask_list_map.
  - apply Forall_forall. intros x Hin. apply mask_list_In in Hin.
    rewrite Forall_forall in Hnz. now apply Hnz.
Qed.

Lemma pow_1 x : pow (Fin x) 1 = Fin x.
Proof.
  unfold pow. rewrite (Rsign_pos 1) by lra.
  destruct (Rsign x) eqn:E.
  - apply Rsign_Eq in E. now subst.
  - rewrite (is_integer_IZR 1), (Int_part_IZR 1). f_equal. simpl. ring.
  - apply Rsign_Gt in E. f_equal. now apply Rpower_1.
Qed.






End Regular.

(** ** The whole-period growth *)
Section Growth.

Lemma Rpower_above_1 x e : 1 < x -> 0 < e -> 1 < Rpower x e.
Proof.
  intros Hx He. unfold Rpower. rewrite <- exp_0. apply exp_increasing.
  assert (0 < ln x) by (rewrite <- ln_1; apply ln_increasing; lra).
  nra.
Qed.

Lemma Rpower_below_1 x e : 0 < x < 1 -> 0 < e -> Rpower x e < 1.
Proof.
  intros Hx He. unfold Rpower. rewrite <- exp_0. apply exp_increasing.
  assert (ln x < 0) by (rewrite <- ln_1; apply ln_increasing; lra).
  nra.
Qed.

Lemma Rpower_at_1 e : Rpower 1 e = 1.
Proof. unfold Rpower. rewrite ln_1, Rmult_0_r. apply exp_0. Qed.


(** The first rate cancels. *)
Lemma running_product_scale c a fs :
  running_product (c * a) fs = map (Rmult c) (running_product a fs).
Proof.
  revert a; induction fs as [|f fs IH]; intros a; [reflexivity|].
  simpl. rewrite Rmult_assoc. now rewrite IH.
Qed.

Lemma reals_anchor g r0 rest :
  -100 < r0 ->
  reals ((g, r0) :: rest)
  = map2 mul (values ((g, 0) :: rest))
      (map (fun p => if Req_dec_T p 0 then PInf else Fin (1 / p))
           (1 :: running_product 1 (map (fun r => 1 + r / 100) (map snd rest)))).
Proof.
  intros Hr0. set (c := 1 + r0 / 100). assert (Hc : 0 < c) by (unfold c; lra).
  unfold reals, value_real. rewrite indice_fin.
  assert (Hidx : real_index (map snd ((g, r0) :: rest))
          = map (fun p => 100 * (c * p))
                (1 :: running_product 1 (map (fun r => 1 + r / 100) (map snd rest)))).
  { unfold real_index. cbn [map snd running_product]. fold c.
    replace (1 * c) with (c * 1) by ring.
    rewrite running_product_scale, !map_map. cbn [map]. reflexivity. }
  rewrite Hidx. cbn [map hd].
  change (values ((g, r0) :: rest)) with (values ((g, 0) :: rest)).
  f_equal. f_equal.
  - rewrite div_fin by nra.
    destruct (Req_dec_T 1 0); [lra|]. f_equal. field. lra.
  - rewrite !map_map. apply map_ext. intros p.
    destruct (Req_dec_T p 0) as [->|Hp].
    + replace (100 * (c * 0)) with 0 by ring. rewrite div_zero.
      rewrite Rsign_pos by nra. reflexivity.
    + rewrite div_fin by nra. f_equal. field. split; [assumption | lra].
Qed.



(** Chronological tables. *)
Lemma later_month_later_day a b :
  first_of_month a -> first_of_month b ->
  (month_index a < month_index b)%Z ->
  (0 < days_between b a)%Z.
Proof.
  destruct a as [ya ma da], b as [yb mb db].
  unfold first_of_month, month_index, days_between, days_from_civil.
  cbn [ts_year ts_month ts_day].
  intros [Ha ->] [Hb ->] Hlt.
  destruct (Z.leb_spec ma 2), (Z.leb_spec mb 2);
    Z.div_mod_to_equations; lia.
Qed.

Lemma last_In {A} (s : list A) d : s <> [] -> In (last s d) s.
Proof.
  induction s as [|x s IH]; [congruence|]. intros _.
  destruct s as [|y s]; [now left|].
  right. apply IH. discriminate.
Qed.

Lemma chronological_span rows :
  chronological rows -> (2 <= List.length rows)%nat -> (0 < span_days rows)%Z.
Proof.
  intros [Hfirst Hsorted] Hlen. unfold span_days.
  assert (Hl : length (periods rows) = length rows) by apply length_periods.
  destruct (periods rows) as [|a [|b l]]; try (simpl in Hl; lia).
  cbn [hd]. rewrite last_cons.
  assert (Hin : In (last (b :: l) a) (b :: l)) by (apply last_In; discriminate).
  inversion Hsorted as [|? ? _ Hall]; subst.
  rewrite Forall_forall in Hall, Hfirst.
  apply later_month_later_day.
  - apply Hfirst. now left.
  - apply Hfirst. now right.
  - now apply Hall.
Qed.

(** X16.  When the joined table has at least two rows whose periods are
    first days of months in strictly ascending order, the span is positive,
    so is n_years, and the run completes with its table, its growth per year
    and its whole-period growth (lines 138-143). *)
Theorem chronological_run_completes
    (w : World) (gold : list GoldRow) (ipc : list IpcRow) (rows : list (GoldRow * R)) :
  fetch_series w = Some gold ->
  read_csv w = Some ipc ->
  merged_rows gold ipc = Some rows ->
  (2 <= List.length rows)%nat ->
  chronological rows ->
  (0 < span_days rows)%Z
  /\ 0 < n_years rows
  /\ outcome w = inr (mkResult (table_with_year rows) (growth_by_year rows) (growth rows)).
Proof.
  intros Hg Hi Hm Hlen Hch.
  assert (Hspan := chronological_span rows Hch Hlen).
  repeat split; trivial.
  - unfold n_years. apply IZR_lt in Hspan. apply Rdiv_lt_0_compat; lra.
  - unfold outcome.
    rewrite (run_joined w gold Hg ipc Hi rows Hm)
      by (destruct rows; [simpl in Hlen; lia | discriminate]).
    destruct (Z.eqb_spec (span_days rows) 0); [lia | reflexivity].
Qed.

Lemma chronological_run_completes_witness :
  (0 < span_days rows_q1)%Z
  /\ 0 < n_years rows_q1
  /\ outcome world_q1
     = inr (mkResult (table_with_year rows_q1) (growth_by_year rows_q1) (growth rows_q1)).
Proof.
  apply (chronological_run_completes world_q1 gold_q1 ipc_q1 rows_q1);
    try reflexivity.
  - simpl. lia.
  - split.
    + repeat constructor; simpl; lia.
    + repeat constructor; unfold month_index; simpl; lia.
Defined.

End Growth.

Section More.



(** X17.  One 'Variación mensual' row whose period text does not parse stops
    the run at line 62 with the parser's error: the nominal chart is the only
    output, whatever the other rows are. *)
Theorem unparseable_period_aborts
    (w : World) (gold : list GoldRow) (ipc : list IpcRow) (c : IpcRow) :
  fetch_series w = Some gold ->
  read_csv w = Some ipc ->
  In c ipc ->
  Tipo_de_dato c = "Variación mensual" ->
  Periodo c = None ->
  outcome w = inl DateParseError /\ outputs w = [nominal_chart gold].
Proof.
  intros Hg Hi Hin Ht Hp.
  assert (Hm : merged_rows gold ipc = None).
  { unfold merged_rows.
    assert (Hc : In c (monthly_rows ipc)).
    { unfold monthly_rows. apply filter_In. split; [assumption|]. now apply String.eqb_eq. }
    induction (monthly_rows ipc) as [|c' l IH]; [destruct Hc|].
    cbn [map parse_all]. destruct Hc as [->|Hc].
    - now rewrite Hp.
    - destruct (Periodo c'); [|reflexivity].
      destruct (parse_all (map Periodo l)); [|reflexivity].
      specialize (IH Hc). discriminate. }
  unfold outcome, outputs. rewrite (run_parse_fails w gold Hg ipc Hi Hm). split; reflexivity.
Qed.

Lemma unparseable_period_aborts_witness :
  outcome (world_of gold_q1 (mkIpc "Variación mensual" None 0.2 :: ipc_q1))
    = inl DateParseError
  /\ outputs (world_of gold_q1 (mkIpc "Variación mensual" None 0.2 :: ipc_q1))
     = [nominal_chart gold_q1].
Proof.
  apply (unparseable_period_aborts _ gold_q1
           (mkIpc "Variación mensual" None 0.2 :: ipc_q1)
           (mkIpc "Variación mensual" None 0.2)); try reflexivity.
  now left.
Defined.

(** X18.  The filter of line 44 keeps exactly the fetched rows of year 2000
    and later (for periods that are calendar days). *)
Theorem filter_keeps_years_from_2000 (df : list GoldRow) (g : GoldRow) :
  calendar_day (period g) ->
  In g (df_oro_of df) <-> In g df /\ (2000 <= ts_year (period g))%Z.
Proof.
  intros [Hm Hd]. unfold df_oro_of. rewrite filter_In.
  assert (E : ts_geb (period g) start_date = true <-> (2000 <= ts_year (period g))%Z).
  { unfold ts_geb, start_date. cbn [ts_year ts_month ts_day].
    destruct (Z.eqb_spec (ts_year (period g)) 2000) as [Ey|Ey].
    - destruct (Z.eqb_spec (ts_month (period g)) 1).
      + rewrite Z.leb_le. lia.
      + rewrite Z.ltb_lt. lia.
    - rewrite Z.ltb_lt. lia. }
  now rewrite E.
Qed.

Lemma filter_keeps_years_from_2000_witness :
  In (mkGold jan 100) (df_oro_of gold_q1)
  <-> In (mkGold jan 100) gold_q1 /\ (2000 <= ts_year (period (mkGold jan 100)))%Z.
Proof.
  apply (filter_keeps_years_from_2000 gold_q1 (mkGold jan 100)).
  split; simpl; lia.
Defined.

(** With no deflation after the first month the deflated price does not
    exceed the nominal one. *)
Lemma running_product_ge_1 acc fs :
  1 <= acc -> Forall (fun f => 1 <= f) fs ->
  Forall (fun p => 1 <= p) (running_product acc fs).
Proof.
  revert acc; induction fs as [|f fs IH]; intros acc Ha H; simpl; constructor;
    inversion H; subst.
  - nra.
  - apply IH; [nra | assumption].
Qed.

(** X19.  When the first rate is above -100 and no later rate is negative,
    the deflated price of a non-negative nominal price is a number between 0
    and that nominal price (lines 69-70). *)
Theorem real_price_at_most_nominal
    (g : GoldRow) (r0 : R) (rest : list (GoldRow * R)) (i : nat) :
  -100 < r0 ->
  Forall (fun r => 0 <= snd r) rest ->
  (i < List.length ((g, r0) :: rest))%nat ->
  0 <= value_at ((g, r0) :: rest) i ->
  exists x,
    real_at ((g, r0) :: rest) i = Fin x
    /\ 0 <= x <= value_at ((g, r0) :: rest) i.
Proof.
  intros Hr0 Hrest Hi Hv.
  set (rows := (g, r0) :: rest) in *.
  set (ps := 1 :: running_product 1 (map (fun r => 1 + r / 100) (map snd rest))).
  assert (Hps : Forall (fun p => 1 <= p) ps).
  { unfold ps. constructor; [lra|]. apply running_product_ge_1; [lra|].
    apply Forall_forall. intros f Hf. apply in_map_iff in Hf.
    destruct Hf as [r [<- Hr]]. apply in_map_iff in Hr. destruct Hr as [row [<- Hrow]].
    rewrite Forall_forall in Hrest. specialize (Hrest row Hrow). lra. }
  assert (Hlen : length ps = length rows).
  { unfold ps, rows. cbn [length]. now rewrite length_running_product, !length_map. }
  assert (Hp : 1 <= nth i ps 1).
  { rewrite Forall_forall in Hps. apply Hps. apply nth_In. lia. }
  exists (value_at rows i * (1 / nth i ps 1)).
  split.
  - unfold real_at, rows. rewrite (reals_anchor g r0 rest Hr0). fold ps.
    assert (Hlv : length (values ((g, 0) :: rest)) = length rows)
      by (rewrite length_values; reflexivity).
    rewrite (nth_map2 _ _ _ _ (Fin 0) NaN)
      by (rewrite ?length_map, ?Hlv, ?Hlen; solve [reflexivity | exact Hi]).
    assert (Hq : nth i (map (fun p => if Req_dec_T p 0 then PInf else Fin (1 / p)) ps) NaN
                 = Fin (1 / nth i ps 1)).
    { rewrite (nth_indep _ NaN ((fun p => if Req_dec_T p 0 then PInf else Fin (1 / p)) 1))
        by (rewrite length_map; lia).
      rewrite (map_nth (fun p => if Req_dec_T p 0 then PInf else Fin (1 / p))).
      destruct (Req_dec_T (nth i ps 1) 0); [lra | reflexivity]. }
    rewrite Hq.
    assert (Hval : nth i (values ((g, 0) :: rest)) (Fin 0) = Fin (value_at rows i)).
    { unfold values, value_at, rows. cbn [map fst value].
      rewrite <- (map_map (fun r => value (fst r)) Fin).
      change (Fin (value g) :: map Fin (map (fun r => value (fst r)) rest))
        with (map Fin (value g :: map (fun r => value (fst r)) rest)).
      apply map_nth. }
    rewrite Hval. reflexivity.
  - assert (0 < 1 / nth i ps 1 <= 1).
    { split; [apply Rdiv_lt_0_compat; lra|].
      apply (Rmult_le_reg_r (nth i ps 1)); [lra|]. field_simplify; lra. }
    nra.
Qed.

Lemma real_price_at_most_nominal_witness :
  exists x,
    real_at ((mkGold jan 100, 0.5) :: [(mkGold feb 102, 0.3)]) 1 = Fin x
    /\ 0 <= x <= value_at ((mkGold jan 100, 0.5) :: [(mkGold feb 102, 0.3)]) 1.
Proof.
  apply (real_price_at_most_nominal (mkGold jan 100) 0.5 [(mkGold feb 102, 0.3)] 1).
  - lra.
  - repeat constructor. simpl. lra.
  - simpl. lia.
  - unfold value_at. simpl. lra.
Defined.

End More.

(* ===================================================================== *)
(** * Exact arithmetic against binary64, and the run as a function *)

(** ** What binary64 arithmetic changes *)
Section Binary64.

Example scenario_index64 :
  IPC_indice64 rates_q1
  = [S754_finite false 7072058789855231 (-46);
     S754_finite false 7093274966224797 (-46);
     S754_finite false 7086181691258572 (-46)].
Proof. vm_compute. reflexivity. Qed.

(** The recurrence of the index is exact arithmetic only: in binary64 the
    second index of the scenario is one unit in the last place above the
    first index times 1 + 0.3/100. *)
Example index_recurrence_rounds :
  nth 1 (IPC_indice64 rates_q1) S754_nan
  <> mul64 (nth 0 (IPC_indice64 rates_q1) S754_nan)
           (add64 (of_Z 1) (div64 (decimal 3 10) (of_Z 100))).
Proof. vm_compute. discriminate. Qed.

(** Rates above -100 can bring the index to 0 in binary64: the running
    product underflows. *)
Example index_underflows :
  forallb (fun r => SFltb (of_Z (-100)) r) rates_crash = true
  /\ nth 46 (IPC_indice64 rates_crash) S754_nan = S754_zero false.
Proof. split; vm_compute; reflexivity. Qed.

Lemma exponent_q1_positive : 0 < 1 / n_years rows_q1.
Proof.
  unfold n_years. replace (span_days rows_q1) with 60%Z by reflexivity.
  apply Rdiv_lt_0_compat; [lra|]. apply Rdiv_lt_0_compat; lra.
Qed.

Lemma growth64_nan years : 0 < 1 / years -> growth64 S754_nan years = NaN.
Proof.
  intros H. unfold growth64, to_float, pow. now rewrite (Rsign_pos _ H).
Qed.

Lemma growth64_finite m e years :
  0 < 1 / years ->
  exists g, growth64 (S754_finite false m e) years = Fin g.
Proof.
  intros H. unfold growth64, to_float, pow. rewrite (Rsign_pos _ H).
  assert (Hpos : 0 < IZR (cond_Zopp false (Z.pos m)) * powerRZ 2 e).
  { apply Rmult_lt_0_compat.
    - apply IZR_lt. reflexivity.
    - apply powerRZ_lt. lra. }
  rewrite (Rsign_pos _ Hpos). eexists. reflexivity.
Qed.

End Binary64.

(** Against C7 as stated: in binary64, the prices of the scenario multiplied
    by k = 1e307 overflow to +inf, every deflated price is +inf, the quotient
    of the last by the first is NaN and so is the growth, while the growth of
    the prices themselves is a number. *)
Lemma scaling_by_1e307_gives_nan :
  SFltb (of_Z 0) ten_to_307 = true
  /\ value_real64 (scale64 ten_to_307 prices_q1) (IPC_indice64 rates_q1)
     = [S754_infinity false; S754_infinity false; S754_infinity false]
  /\ growth64 (ratio64 (value_real64 (scale64 ten_to_307 prices_q1)
                          (IPC_indice64 rates_q1))) (n_years rows_q1) = NaN
  /\ exists g,
       growth64 (ratio64 (value_real64 prices_q1 (IPC_indice64 rates_q1)))
                (n_years rows_q1) = Fin g.
Proof.
  split; [|split; [|split]].
  - vm_compute. reflexivity.
  - vm_compute. reflexivity.
  - replace (ratio64 _) with S754_nan by (vm_compute; reflexivity).
    apply growth64_nan, exponent_q1_positive.
  - replace (ratio64 _) with (S754_finite false 4539570102150207 (-52))
      by (vm_compute; reflexivity).
    apply growth64_finite, exponent_q1_positive.
Qed.




Section Groups.

Lemma lookup_nonempty (df : DataFrame) name c : lookup df name = Some c -> df <> [].
Proof. destruct df; [discriminate | discriminate]. Qed.

Lemma col_length_mask mask c :
  List.length mask = col_length c ->
  col_length (mask_column mask c) = count_occ bool_dec mask true.
Proof. destruct c; simpl; intros H; now apply length_mask_list. Qed.

Lemma nrows_mask_rows mask df :
  df <> [] -> List.length mask = nrows df ->
  nrows (mask_rows mask df) = count_occ bool_dec mask true.
Proof.
  destruct df as [|[n c] df]; [congruence|]. intros _ H. simpl in *.
  now apply col_length_mask.
Qed.

Lemma count_mask k ys :
  count_occ bool_dec (map (Z.eqb k) ys) true = count_occ Z.eq_dec ys k.
Proof.
  induction ys as [|y ys IH]; [reflexivity|].
  simpl. destruct (Z.eqb_spec k y) as [->|Hne].
  - destruct (Z.eq_dec y y); [|contradiction].
    destruct (bool_dec true true); [|contradiction]. now rewrite IH.
  - destruct (Z.eq_dec y k); [congruence|].
    destruct (bool_dec false true); [discriminate|]. exact IH.
Qed.

(** X11.  On a table whose year column has one entry per row, groupby
    returns one group per distinct year, in ascending year order; every group
    has at least one row and the group sizes (len(group), the n_months of
    line 122) add up to the number of rows of the table (lines 119-122). *)
Theorem groupby_partitions_the_rows (df : DataFrame) (ys : list Z) :
  lookup df "year" = Some (ColInt ys) ->
  nrows df = List.length ys ->
  exists groups,
    groupby df "year" = ret groups
    /\ map fst groups = sorted_keys ys
    /\ Forall (fun g => (1 <= nrows (snd g))%nat) groups
    /\ list_sum (map (fun g => nrows (snd g)) groups) = nrows df.
Proof.
  intros Hy Hn.
  assert (Hne : df <> []) by (eapply lookup_nonempty; eassumption).
  exists (map (fun k => (k, mask_rows (map (Z.eqb k) ys) df)) (sorted_keys ys)).
  assert (Hrows : forall k, nrows (mask_rows (map (Z.eqb k) ys) df)
                            = count_occ Z.eq_dec ys k).
  { intros k. rewrite nrows_mask_rows; [apply count_mask | assumption |].
    now rewrite length_map. }
  split; [|split; [|split]].
  - unfold groupby, get_int. rewrite Hy. now rewrite bind_ret.
  - rewrite map_map. cbn [fst]. apply map_id.
  - apply Forall_forall. intros g Hg. apply in_map_iff in Hg.
    destruct Hg as [k [<- Hk]]. cbn [snd]. rewrite Hrows.
    rewrite In_sorted_keys in Hk. apply (count_occ_In Z.eq_dec) in Hk. lia.
  - rewrite map_map. cbn [snd]. rewrite (map_ext _ _ Hrows).
    rewrite sum_counts; [now rewrite Hn | |].
    + apply sorted_NoDup, sorted_keys_sorted.
    + intros y Hin. now apply In_sorted_keys.
Qed.

Lemma groupby_partitions_the_rows_witness :
  exists groups,
    groupby (table_with_year rows_q1) "year" = ret groups
    /\ map fst groups = sorted_keys (years rows_q1)
    /\ Forall (fun g => (1 <= nrows (snd g))%nat) groups
    /\ list_sum (map (fun g => nrows (snd g)) groups) = nrows (table_with_year rows_q1).
Proof.
  apply (groupby_partitions_the_rows (table_with_year rows_q1) (years rows_q1));
    reflexivity.
Defined.

(** The entries of cagr_per_year, read on the table the run leaves. *)
Lemma pow_one b : pow b 1 = b.
Proof.
  destruct b as [x| | |].
  - apply pow_1.
  - unfold pow. now rewrite (Rsign_pos 1) by lra.
  - unfold pow. rewrite (Rsign_pos 1) by lra.
    unfold is_odd_integer. now rewrite (is_integer_IZR 1), (Int_part_IZR 1).
  - unfold pow. now rewrite (Rsign_pos 1) by lra.
Qed.

Lemma completed_run_result w gold ipc rows r :
  fetch_series w = Some gold ->
  read_csv w = Some ipc ->
  merged_rows gold ipc = Some rows ->
  outcome w = inr r ->
  r = mkResult (table_with_year rows) (growth_by_year rows) (growth rows).
Proof.
  intros Hg Hi Hm. unfold outcome.
  destruct rows as [|r0 rows].
  { rewrite (run_join_empty w gold Hg ipc Hi Hm). discriminate. }
  rewrite (run_joined w gold Hg ipc Hi (r0 :: rows) Hm) by discriminate.
  destruct (span_days (r0 :: rows) =? 0)%Z; [discriminate|].
  now intros [= <-].
Qed.

Lemma year_entry w gold ipc rows r ys vr k v :
  fetch_series w = Some gold ->
  read_csv w = Some ipc ->
  merged_rows gold ipc = Some rows ->
  outcome w = inr r ->
  lookup (df_oro_ipc r) "year" = Some (ColInt ys) ->
  lookup (df_oro_ipc r) "value_real" = Some (ColFloat vr) ->
  In (k, v) (cagr_per_year r) ->
  List.length ys = List.length vr
  /\ v = mul (sub (pow (div (last (mask_list (map (Z.eqb k) ys) vr) NaN)
                            (hd NaN (mask_list (map (Z.eqb k) ys) vr)))
                       (12 / INR (List.length (mask_list (map (Z.eqb k) ys) vr))))
                  (Fin 1)) (Fin 100).
Proof.
  intros Hg Hi Hm Ho Hy Hv Hin.
  rewrite (completed_run_result w gold ipc rows r Hg Hi Hm Ho) in *.
  cbn [df_oro_ipc cagr_per_year] in *.
  injection Hy as <-. injection Hv as <-.
  rewrite growth_by_year_map in Hin. apply in_map_iff in Hin.
  destruct Hin as [k' [[= <- <-] _]].
  split; [now rewrite length_years, length_reals|].
  rewrite year_growth_eq. fold (year_reals rows k').
  now rewrite year_reals_length.
Qed.

(** X12.  In a completed run, when the rows of year k in the table the run
    leaves are a single row whose value_real is a number other than 0, the
    entry of k in cagr_per_year is exactly 0 (valor_final = valor_inicial,
    exponent 12; lines 119-124). *)
Theorem single_month_year_has_zero_growth
    (w : World) (gold : list GoldRow) (ipc : list IpcRow) (rows : list (GoldRow * R))
    (r : Result) (ys : list Z) (vr : list float64) (k : Z) (v : float64) (x : R) :
  fetch_series w = Some gold ->
  read_csv w = Some ipc ->
  merged_rows gold ipc = Some rows ->
  outcome w = inr r ->
  lookup (df_oro_ipc r) "year" = Some (ColInt ys) ->
  lookup (df_oro_ipc r) "value_real" = Some (ColFloat vr) ->
  mask_list (map (Z.eqb k) ys) vr = [Fin x] ->
  x <> 0 ->
  In (k, v) (cagr_per_year r) ->
  v = Fin 0.
Proof.
  intros Hg Hi Hm Ho Hy Hv Hone Hx Hin.
  destruct (year_entry w gold ipc rows r ys vr k v Hg Hi Hm Ho Hy Hv Hin) as [_ ->].
  rewrite Hone. cbn [last hd length].
  rewrite div_fin by assumption.
  replace (12 / INR 1) with 12 by (simpl; lra).
  rewrite pow_12. cbn [sub neg add mul]. f_equal.
  replace (x / x) with 1 by now field. simpl. ring.
Qed.

Lemma outcome_turn :
  outcome world_turn
  = inr (mkResult (table_with_year rows_turn) (growth_by_year rows_turn)
                  (growth rows_turn)).
Proof.
  unfold outcome.
  rewrite (run_joined world_turn (map fst rows_turn) eq_refl
             (map (fun r => monthly (period (fst r)) (snd r)) rows_turn) eq_refl
             rows_turn eq_refl) by discriminate.
  reflexivity.
Qed.

Lemma december_turn :
  mask_list (map (Z.eqb 2000) (years rows_turn)) (reals rows_turn)
  = [Fin (100 * (1 / 1))].
Proof.
  unfold rows_turn. rewrite reals_anchor by lra.
  cbn [values map fst snd value running_product map2 years periods period ts_year
       mask_list Z.eqb Pos.eqb].
  destruct (Req_dec_T 1 0) as [|_]; [lra|]. reflexivity.
Qed.

Lemma single_month_year_has_zero_growth_witness :
  year_growth rows_turn 2000 = Fin 0.
Proof.
  apply (single_month_year_has_zero_growth world_turn (map fst rows_turn)
           (map (fun r => monthly (period (fst r)) (snd r)) rows_turn) rows_turn
           (mkResult (table_with_year rows_turn) (growth_by_year rows_turn)
                     (growth rows_turn))
           (years rows_turn) (reals rows_turn) 2000 (year_growth rows_turn 2000)
           (100 * (1 / 1))); try reflexivity.
  - apply outcome_turn.
  - apply december_turn.
  - lra.
  - cbn [cagr_per_year]. rewrite growth_by_year_map.
    change (sorted_keys (years rows_turn)) with [2000%Z; 2001%Z]. now left.
Defined.

(** X13.  In a completed run, when year k has twelve rows in the table the
    run leaves, the exponent 12 / n_months is 1 and the entry of k in
    cagr_per_year is (valor_final / valor_inicial - 1) * 100 on the first and
    last value_real of the year, whatever these values are (lines
    119-124). *)
Theorem full_year_growth_is_yearly_change
    (w : World) (gold : list GoldRow) (ipc : list IpcRow) (rows : list (GoldRow * R))
    (r : Result) (ys : list Z) (vr : list float64) (k : Z) (v : float64) :
  fetch_series w = Some gold ->
  read_csv w = Some ipc ->
  merged_rows gold ipc = Some rows ->
  outcome w = inr r ->
  lookup (df_oro_ipc r) "year" = Some (ColInt ys) ->
  lookup (df_oro_ipc r) "value_real" = Some (ColFloat vr) ->
  List.length (mask_list (map (Z.eqb k) ys) vr) = 12%nat ->
  In (k, v) (cagr_per_year r) ->
  v = mul (sub (div (last (mask_list (map (Z.eqb k) ys) vr) NaN)
                    (hd NaN (mask_list (map (Z.eqb k) ys) vr)))
               (Fin 1)) (Fin 100).
Proof.
  intros Hg Hi Hm Ho Hy Hv Hlen Hin.
  destruct (year_entry w gold ipc rows r ys vr k v Hg Hi Hm Ho Hy Hv Hin) as [_ ->].
  rewrite Hlen.
  replace (12 / INR 12) with 1 by (simpl; field).
  now rewrite pow_one.
Qed.

Lemma outcome_2001 :
  outcome world_2001
  = inr (mkResult (table_with_year rows_2001) (growth_by_year rows_2001)
                  (growth rows_2001)).
Proof.
  unfold outcome.
  rewrite (run_joined world_2001 (map fst rows_2001) eq_refl
             (map (fun r => monthly (period (fst r)) (snd r)) rows_2001) eq_refl
             rows_2001 eq_refl) by discriminate.
  reflexivity.
Qed.

Lemma full_year_growth_is_yearly_change_witness :
  year_growth rows_2001 2001
  = mul (sub (div (last (mask_list (map (Z.eqb 2001) (years rows_2001))
                                   (reals rows_2001)) NaN)
                  (hd NaN (mask_list (map (Z.eqb 2001) (years rows_2001))
                                     (reals rows_2001))))
             (Fin 1)) (Fin 100).
Proof.
  apply (full_year_growth_is_yearly_change world_2001 (map fst rows_2001)
           (map (fun r => monthly (period (fst r)) (snd r)) rows_2001) rows_2001
           (mkResult (table_with_year rows_2001) (growth_by_year rows_2001)
                     (growth rows_2001))
           (years rows_2001) (reals rows_2001) 2001 (year_growth rows_2001 2001));
    try reflexivity.
  - apply outcome_2001.
  - fold (year_reals rows_2001 2001). now rewrite year_reals_length.
  - cbn [cagr_per_year]. rewrite growth_by_year_map.
    change (sorted_keys (years rows_2001)) with [2001%Z]. now left.
Defined.

End Groups.
